(** * LongviewGauge (CPU): aggregation, normalisation and status text

    A shallow embedding of the CPU gauge of the Longview feature:
    [sumCPUUsage], [normalizeValue], [innerText] and the state handling of
    the [LongviewGauge] component.

    Numbers.  A JavaScript number is modelled as an exact rational in
    canonical form ([Qc]), so that equal numbers are equal terms.  Rounding
    error, [NaN] and the infinities of IEEE-754 are outside this model;
    module [Double] has the aggregator on IEEE-754 doubles, where the
    rounding of its additions matters.

    Shapes.  TypeScript's declared types give the shape of every value; as
    at run time, any position may still hold [undefined] or [null]
    ([nullable]).  An object used as a dictionary is a finite map from
    property names to values.

    Errors.  A computation either returns or throws ([Completion]). *)

From Stdlib Require Import QArith Qcanon Qround Lqa PrimFloat.
From stdpp Require Import base option numbers strings list gmap fin_maps.

Local Open Scope Qc_scope.

(** ** JavaScript values *)

Abbreviation number := Qc.

(** The comparisons [a < b] and [a > b] on numbers. *)
Definition lt (a b : number) : bool := bool_decide (a < b).
Definition gt (a b : number) : bool := bool_decide (b < a).

(** A number literal. *)
Definition num (z : Z) : number := Q2Qc (inject_Z z).

(** The literal [0.5]. *)
Definition half : number := Q2Qc (1 # 2).

Inductive nullable (A : Type) : Type :=
  | Undefined
  | Null
  | Val (a : A).
Arguments Undefined {A}.
Arguments Null {A}.
Arguments Val {A} a.

(** [v == null] of JavaScript: true of both [undefined] and [null]. *)
Definition nullish {A} (v : nullable A) : bool :=
  match v with
  | Val _ => false
  | _ => true
  end.

(** Truthiness of a possibly missing number: [undefined], [null] and [0]
    are falsy. *)
Definition truthy (v : nullable number) : bool :=
  match v with
  | Val n => bool_decide (n ≠ num 0)
  | _ => false
  end.

Inductive Error : Type :=
  | TypeError (message : string)
  | PlainError (message : string).

Inductive Completion (A : Type) : Type :=
  | Normal (a : A)
  | Throw (e : Error).
Arguments Normal {A} a.
Arguments Throw {A} e.

Global Instance Completion_ret : MRet Completion := λ A a, Normal a.
Global Instance Completion_bind : MBind Completion := λ A B k c,
  match c with
  | Normal a => k a
  | Throw e => Throw e
  end.

(** [xs.forEach(f)] where [f] updates a captured variable of type [S]: the
    variable is threaded through the calls, and a call that throws ends the
    loop. *)
Fixpoint forEach {K S} (xs : list K) (f : K → S → Completion S) (s : S)
    : Completion S :=
  match xs with
  | [] => Normal s
  | x :: xs' => s' ← f x s; forEach xs' f s'
  end.

(** An object used as [Record<string, V>]. *)
Abbreviation Obj V := (gmap string (nullable V)).

(** [o[k]]: a property that is not there reads as [undefined]. *)
Definition prop {V} (o : Obj V) (k : string) : nullable V :=
  match o !! k with
  | Some v => v
  | None => Undefined
  end.

(** [Object.keys(o)]: the names of the properties of [o], also of those
    that hold [undefined] or [null]; it throws when [o] itself is
    [undefined] or [null].  The names come in the order in which the map
    lists them, where JavaScript keeps the order of insertion; an exact sum
    does not depend on it. *)
Definition Object_keys {V} (o : nullable (Obj V)) : Completion (list string) :=
  match o with
  | Val m => Normal (map_to_list m).*1
  | _ => Throw (TypeError "Cannot convert undefined or null to object")
  end.

(** [o[k]] where [o] itself may be missing: reading a property of
    [undefined] or [null] throws. *)
Definition get {V} (o : nullable (Obj V)) (k : string) : Completion (nullable V) :=
  match o with
  | Val m => Normal (prop m k)
  | _ => Throw (TypeError "Cannot read property of undefined or null")
  end.

(** [a[i]] on an array: an index out of range reads as [undefined]. *)
Definition elem {A} (a : list (nullable A)) (i : nat) : nullable A :=
  match a !! i with
  | Some v => v
  | None => Undefined
  end.

(** A default parameter value applies to [undefined] only. *)
Definition default_param {A} (arg : nullable A) (dflt : A) : nullable A :=
  match arg with
  | Undefined => Val dflt
  | _ => arg
  end.

(** ** Ramda *)

(** One turn of the loop of [path]:
    [if (val == null) return; val = val[paths[idx]]]. *)
Definition path_step {A B} (val : nullable A) (read : A → nullable B) : nullable B :=
  match val with
  | Val a => read a
  | _ => Undefined
  end.

(** [defaultTo(d, v)]: [d] when [v] is [undefined] or [null] (or [NaN],
    which the model does not have). *)
Definition defaultTo {A} (d : A) (v : nullable A) : A :=
  match v with
  | Val a => a
  | _ => d
  end.

(** [clamp(min, max)(value)]. *)
Definition clamp (min max value : number) : Completion number :=
  if gt min max
  then Throw (PlainError "min must not be greater than max in clamp(min, max, value)")
  else Normal (if lt value min then min
               else if gt value max then max
               else value).

(** ** Longview types *)

(** Modelled from the spec: the declaration of a sample point ([Stat] of
    [request.types]) is not part of the sources at hand.  A sample point
    carries a numeric value, read by the code as field [y], and a timestamp
    [x] that the gauge never reads. *)
Record Stat : Type := { x : nullable number; y : nullable number }.

(** A series is a [Stat[]]. *)
Abbreviation Series := (list (nullable Stat)).

(** Modelled from the spec: [CPU] of [request.types], used by the code as a
    dictionary from series names ("user", "system", "wait") to series. *)
Abbreviation CPU := (Obj Series).

(** ** Utilities of the gauge *)

(** [path([entry, 0, 'y'], cpu)]: the loop of [path] unrolled over the three
    elements of the path. *)
Definition path_entry_0_y (entry : string) (cpu : nullable CPU) : nullable number :=
  let val := cpu in
  let val := path_step val (λ o, prop o entry) in
  let val := path_step val (λ a, elem a 0) in
  let val := path_step val y in
  val.

Definition pathOr_entry_0_y (d : number) (entry : string) (cpu : nullable CPU) : number :=
  defaultTo d (path_entry_0_y entry cpu).

Definition sumCPUUsage (CPUData : nullable (Obj CPU)) : Completion number :=
  let CPUData := default_param CPUData ∅ in
  let sum := num 0 in
  keys ← Object_keys CPUData;
  sum ← forEach keys (λ key sum,
    cpu ← get CPUData key;
    entries ← Object_keys cpu;
    forEach entries (λ entry sum,
      let val := pathOr_entry_0_y (num 0) entry cpu in
      Normal (sum + val)) sum) sum;
  Normal sum.

(** [Math.round]: the integer closest to [v]; of two equally close integers,
    the one closer to +∞. *)
Definition Math_round (v : number) : number :=
  let below := Qfloor v in
  if lt (v - num below) half
  then num below
  else num (below + 1).

Definition normalizeValue (value numCores : number) : Completion number :=
  clamped ← clamp (num 0) (num 100 * numCores) value;
  let rounded := Math_round clamped in
  Normal rounded.

(** [APIError] of linode-js-sdk. *)
Record APIError : Type := { field : option string; reason : string }.

Section StatusText.

(** The conversion of a number to a string that a template literal applies
    ([Number::toString]); its digits are a matter of the floating point
    representation, so it stays abstract. *)
Variable Number_toString : number → string.

Definition innerText (value : number) (loading : bool) (error : option APIError)
    : string :=
  match error with
  | Some error => reason error
  | None =>
      if loading then "Loading..."
      else Number_toString value +:+ "%"
  end.

End StatusText.

(** ** The component *)

(** The four [useState] cells of [LongviewGauge]. *)
Record State : Type := {
  loading : bool;
  error : option APIError;
  usedCPU : option number;
  numCores : option number
}.

Definition initial : State :=
  {| loading := true; error := None; usedCPU := None; numCores := None |}.

Definition setLoading (b : bool) (st : State) : State :=
  {| loading := b; error := error st;
     usedCPU := usedCPU st; numCores := numCores st |}.
Definition setError (e : option APIError) (st : State) : State :=
  {| loading := loading st; error := e;
     usedCPU := usedCPU st; numCores := numCores st |}.
Definition setUsedCPU (v : number) (st : State) : State :=
  {| loading := loading st; error := error st;
     usedCPU := Some v; numCores := numCores st |}.
Definition setNumCores (v : number) (st : State) : State :=
  {| loading := loading st; error := error st;
     usedCPU := usedCPU st; numCores := Some v |}.

(** Modelled from the spec: the response of [requestStats] for the fields
    [cpu] and [sysinfo], whose declaration is not part of the sources at
    hand: a metric snapshot under [CPU] and a core count under
    [SysInfo.cpu.cores], each of which may be missing. *)
Record SysInfoCPU : Type := { cores : nullable number }.
Record SysInfoT : Type := { cpu : nullable SysInfoCPU }.
Record Data : Type := {
  data_SysInfo : nullable SysInfoT;
  data_CPU : nullable (Obj CPU)
}.

(** [path(['SysInfo', 'cpu', 'cores'], data)]. *)
Definition path_SysInfo_cpu_cores (data : nullable Data) : nullable number :=
  let val := data in
  let val := path_step val data_SysInfo in
  let val := path_step val cpu in
  let val := path_step val cores in
  val.

(** [data.CPU]. *)
Definition get_CPU (data : nullable Data) : Completion (nullable (Obj CPU)) :=
  match data with
  | Val d => Normal (data_CPU d)
  | _ => Throw (TypeError "Cannot read property 'CPU' of undefined or null")
  end.

(** Truthiness of a state cell of type [number | undefined]. *)
Definition truthy_cell (v : option number) : bool :=
  match v with
  | Some n => bool_decide (n ≠ num 0)
  | None => false
  end.

(** The callback given to [then].  It returns the state it leaves and, when
    it throws, the error: the updates made before the throw stay. *)
Definition onFulfilled (data : nullable Data) (st : State) : State * option Error :=
  let st := setLoading false st in
  let st := setError None st in
  let cores := path_SysInfo_cpu_cores data in
  match cores with
  | Val n =>
      if negb (truthy cores) then (st, None)
      else
        let st := setNumCores n st in
        match (CPUData ← get_CPU data;
               used ← sumCPUUsage CPUData;
               normalizeValue used n) with
        | Normal normalizedUsed => (setUsedCPU normalizedUsed st, None)
        | Throw e => (st, Some e)
        end
  | _ => (st, None)
  end.

(** The callback given to [catch].  [usedCPU] is the value that the render
    which started the fetch captured. *)
Definition onRejected (usedCPU : option number) (st : State) : State :=
  if negb (truthy_cell usedCPU)
  then
    let st := setError (Some {| field := None; reason := "Error" |}) st in
    let st := setLoading false st in
    st
  else st.

(** The outcome of [requestStats]. *)
Inductive Fetch : Type :=
  | Resolved (data : nullable Data)
  | Rejected.

(** [requestStats(...).then(onFulfilled).catch(onRejected)]: the [catch]
    callback runs when the request is rejected and when the [then] callback
    throws. *)
Definition settle (captured : option number) (r : Fetch) (st : State) : State :=
  match r with
  | Resolved data =>
      let '(st', thrown) := onFulfilled data st in
      match thrown with
      | Some _ => onRejected captured st'
      | None => st'
      end
  | Rejected => onRejected captured st
  end.

(** One refresh with a single fetch in flight: the callbacks run on the
    state that the render which started the fetch saw. *)
Definition refresh (r : Fetch) (st : State) : State :=
  settle (usedCPU st) r st.

(** The states in which the component is between two callbacks, each
    callback run to its end.  Fetches may overlap, so a [catch] callback may
    hold a [usedCPU] captured by an earlier render; every captured value is
    allowed here.  The states rendered between the setters of a callback
    are those of [rendered]. *)
Inductive reachable : State → Prop :=
  | reachable_initial : reachable initial
  | reachable_settle captured r st :
      reachable st → reachable (settle captured r st).

(** A fetch that brings no truthy core count: a failure, or a response
    whose core count is missing or 0. *)
Definition lacks_cores (r : Fetch) : bool :=
  match r with
  | Resolved data => negb (truthy (path_SysInfo_cpu_cores data))
  | Rejected => true
  end.

(** Refreshes one after the other. *)
Fixpoint run (rs : list Fetch) (st : State) : State :=
  match rs with
  | [] => st
  | r :: rs' => run rs' (refresh r st)
  end.

(** What [LongviewGauge] passes to [GaugePercent]. *)
Definition gauge_max (st : State) : number :=
  match numCores st with
  | None => num 1
  | Some numCores => num 100 * numCores
  end.

Definition gauge_value (st : State) : number :=
  match usedCPU st with
  | None => num 0
  | Some usedCPU => usedCPU
  end.

(** [usedCPU || 0]. *)
Definition usedCPU_or_0 (st : State) : number :=
  match usedCPU st with
  | Some v => if truthy_cell (Some v) then v else num 0
  | None => num 0
  end.

Definition gauge_innerText (Number_toString : number → string) (st : State) : string :=
  innerText Number_toString (usedCPU_or_0 st) (loading st) (error st).

(** ** The total of a snapshot, as the specification words it *)

(** The value of the first sample point of a series; a series with no
    sample at index 0, or whose first sample has no value, counts as 0. *)
Definition first_sample_value (series : nullable Series) : number :=
  match series with
  | Val (Val {| y := Val v |} :: _) => v
  | _ => num 0
  end.

Definition sum_list (vs : list number) : number := foldr Qcplus (num 0) vs.

(** The sum over every series of a processor. *)
Definition processor_total (cpu : nullable CPU) : number :=
  match cpu with
  | Val series => sum_list (first_sample_value <$> (map_to_list series).*2)
  | _ => num 0
  end.

(** The sum over every processor and every series. *)
Definition snapshot_total (snapshot : Obj CPU) : number :=
  sum_list (processor_total <$> (map_to_list snapshot).*2).

(** Every processor entry of the snapshot is an object. *)
Definition processors_present (snapshot : Obj CPU) : bool :=
  forallb (λ cpu, negb (nullish cpu)) (map_to_list snapshot).*2.

(** The inputs on which every [Object.keys] of [sumCPUUsage] has an object
    to list: no snapshot at all, or a snapshot whose processor entries are
    all objects. *)
Definition well_shaped (CPUData : nullable (Obj CPU)) : bool :=
  match CPUData with
  | Undefined => true
  | Null => false
  | Val snapshot => processors_present snapshot
  end.

(** A series that has no value at index 0: the series is missing or empty,
    or its first sample point is missing or lacks the value field. *)
Definition no_first_value (series : nullable Series) : bool :=
  match series with
  | Val (Val {| y := Val _ |} :: _) => false
  | _ => true
  end.

(** A sample point with value [v] and no timestamp. *)
Definition sample (v : number) : nullable Stat :=
  Val {| x := Undefined; y := Val v |}.

(** The snapshot [{cpu0: {user: [{y: 30}]}, cpu1: {user: [{y: 20}]}}]. *)
Definition example_snapshot : Obj CPU :=
  {[ "cpu0" := Val ({[ "user" := Val [sample (num 30)] ]} : CPU);
     "cpu1" := Val ({[ "user" := Val [sample (num 20)] ]} : CPU) ]}.

(** A response with two cores and no processor in its snapshot. *)
Definition zero_usage_data : nullable Data :=
  Val {| data_SysInfo := Val {| cpu := Val {| cores := Val (num 2) |} |};
         data_CPU := Val ∅ |}.

(** A response without a core count. *)
Definition no_cores_data : nullable Data :=
  Val {| data_SysInfo := Val {| cpu := Val {| cores := Undefined |} |};
         data_CPU := Val example_snapshot |}.

(** A state with an earlier reading of 50 percent on two cores. *)
Definition example_state : State :=
  {| loading := false; error := None;
     usedCPU := Some (num 50); numCores := Some (num 2) |}.

(** One turn of the outer loop of [sumCPUUsage], named for the proofs. *)
Definition outer_body (CPUData : nullable (Obj CPU)) (key : string) (sum : number)
    : Completion number :=
  cpu ← get CPUData key;
  entries ← Object_keys cpu;
  forEach entries (λ entry sum,
    let val := pathOr_entry_0_y (num 0) entry cpu in
    Normal (sum + val)) sum.

(** ** More about the gauge *)

(** The total of an argument of [sumCPUUsage] that may be missing. *)
Definition total_of (CPUData : nullable (Obj CPU)) : number :=
  match CPUData with
  | Val snapshot => snapshot_total snapshot
  | _ => num 0
  end.

(** A number that is an integer. *)
Definition whole (n : number) : bool := bool_decide (n = num (Qfloor n)).

(** A fetch as the types promise it: a failure, a response without a truthy
    core count, or a response whose core count is a positive integer and
    whose snapshot has an object for every processor. *)
Definition good_fetch (r : Fetch) : bool :=
  match r with
  | Rejected => true
  | Resolved data =>
      match data, path_SysInfo_cpu_cores data with
      | Val d, Val n =>
          bool_decide (n = num 0)
          || (lt (num 0) n && whole n && well_shaped (data_CPU d))
      | _, _ => true
      end
  end.

(** A response with two cores and the snapshot [example_snapshot]. *)
Definition example_data : Data :=
  {| data_SysInfo := Val {| cpu := Val {| cores := Val (num 2) |} |};
     data_CPU := Val example_snapshot |}.

(** A response with two cores in which the record of a processor is
    [null]. *)
Definition broken_data : Data :=
  {| data_SysInfo := Val {| cpu := Val {| cores := Val (num 2) |} |};
     data_CPU := Val {[ "cpu0" := Null ]} |}.

(** ** The disk drawer *)

Module DiskDrawer.

(** A string of which the length matters: its UTF-16 code units. *)
Abbreviation text := (list N).

Inductive DrawerMode : Type := create | rename | resize.

Global Instance DrawerMode_eq_dec : EqDecision DrawerMode.
Proof. solve_decision. Defined.

(** [xs.includes(x)]. *)
Definition includes (xs : list DrawerMode) (x : DrawerMode) : bool :=
  bool_decide (x ∈ xs).

(** [Disk] of the API client, with the fields that the drawer reads. *)
Record Disk : Type := {
  disk_label : text;
  disk_filesystem : string;
  disk_size : number
}.

(** The values of the form. *)
Record Values : Type := {
  label : text;
  filesystem : string;
  size : number;
  image : text;
  root_pass : text
}.

(** [disk?.f]. *)
Definition optional {A} (disk : option Disk) (f : Disk → A) : option A :=
  match disk with
  | Some d => Some (f d)
  | None => None
  end.

(** [v ?? d]. *)
Definition coalesce {A} (v : option A) (d : A) : A :=
  match v with
  | Some a => a
  | None => d
  end.

(** [a || b] on numbers, of which [a] may be [undefined]. *)
Definition or_else (a : option number) (b : number) : number :=
  match a with
  | Some n => if truthy_cell a then n else b
  | None => b
  end.

Definition initialValues (disk : option Disk) (maximumSize : number) : Values :=
  {| label := coalesce (optional disk disk_label) [];
     filesystem := coalesce (optional disk disk_filesystem) "ext4";
     size := or_else (Some (or_else (optional disk disk_size) maximumSize)) (num 0);
     image := [];
     root_pass := [] |}.

Definition submitLabelMap (mode : DrawerMode) : string :=
  match mode with
  | create => "Add"
  | rename => "Rename"
  | resize => "Resize"
  end.

Definition getTitle (v : DrawerMode) : string :=
  match v with
  | create => "Add Disk"
  | rename => "Rename Disk"
  | resize => "Resize Disk"
  end.

(** The [disabled] flag of the three text fields. *)
Definition label_disabled (mode : DrawerMode) : bool := includes [resize] mode.
Definition filesystem_disabled (mode : DrawerMode) : bool :=
  includes [resize; rename] mode.
Definition size_disabled (mode : DrawerMode) : bool := includes [rename] mode.

(** The tests of a yup string schema: each gives its message when the value
    fails it.  [required] fails on the empty string; [min] and [max] compare
    the length. *)
Definition required (message : string) (value : text) : option string :=
  match value with
  | [] => Some message
  | _ => None
  end.

Definition min (limit : nat) (message : string) (value : text) : option string :=
  if bool_decide (limit ≤ length value)%nat then None else Some message.

Definition max (limit : nat) (message : string) (value : text) : option string :=
  if bool_decide (length value ≤ limit)%nat then None else Some message.

(** The tests of [RenameDiskSchema] on the label, in the order of their
    declaration. *)
Definition RenameDiskSchema : list (text → option string) :=
  [ required "Label is required.";
    min 3 "Label must contain between 3 and 32 characters.";
    max 32 "Label must contain between 3 and 32 characters." ].

(** The messages of the tests that a value fails. *)
Definition validate (schema : list (text → option string)) (value : text)
    : list string :=
  omap (λ test, test value) schema.

End DiskDrawer.

(** ** The renders between the setters *)

(** A setter that a promise callback calls is not batched with the next
    one: the component renders after each.  These are the states rendered
    while a callback runs, in order; the last one is the state that the
    callback leaves. *)
Definition onFulfilled_renders (data : nullable Data) (st : State) : list State :=
  let st1 := setLoading false st in
  let st2 := setError None st1 in
  let cores := path_SysInfo_cpu_cores data in
  match cores with
  | Val n =>
      if negb (truthy cores) then [st1; st2]
      else
        let st3 := setNumCores n st2 in
        match (CPUData ← get_CPU data;
               used ← sumCPUUsage CPUData;
               normalizeValue used n) with
        | Normal normalizedUsed => [st1; st2; st3; setUsedCPU normalizedUsed st3]
        | Throw e => [st1; st2; st3]
        end
  | _ => [st1; st2]
  end.

Definition onRejected_renders (usedCPU : option number) (st : State) : list State :=
  if negb (truthy_cell usedCPU)
  then
    let st1 := setError (Some {| field := None; reason := "Error" |}) st in
    let st2 := setLoading false st1 in
    [st1; st2]
  else [].

Definition settle_renders (captured : option number) (r : Fetch) (st : State)
    : list State :=
  match r with
  | Resolved data =>
      let '(st', thrown) := onFulfilled data st in
      onFulfilled_renders data st
      ++ match thrown with
         | Some _ => onRejected_renders captured st'
         | None => []
         end
  | Rejected => onRejected_renders captured st
  end.

Definition refresh_renders (r : Fetch) (st : State) : list State :=
  settle_renders (usedCPU st) r st.

(** Every state rendered along refreshes one after the other, the first
    state included. *)
Fixpoint run_renders (rs : list Fetch) (st : State) : list State :=
  match rs with
  | [] => [st]
  | r :: rs' => st :: refresh_renders r st ++ run_renders rs' (refresh r st)
  end.

(** The states that the component renders: the states between two
    callbacks ([reachable]) and the states between the setters of a
    callback. *)
Inductive rendered : State → Prop :=
  | rendered_settled st : reachable st → rendered st
  | rendered_between captured r st st' :
      reachable st → st' ∈ settle_renders captured r st → rendered st'.

(** A response whose core count is 0. *)
Definition zero_cores_data : nullable Data :=
  Val {| data_SysInfo := Val {| cpu := Val {| cores := Val (num 0) |} |};
         data_CPU := Val example_snapshot |}.

(** The cells of a state in which the gauge is within its capacity: a usage
    value only beside a core count, a core count that is positive, and a
    usage value between 0 and 100 times the core count. *)
Definition cells_in_range (st : State) : Prop :=
  match numCores st with
  | None => usedCPU st = None
  | Some n => num 0 < n ∧ ∀ u, usedCPU st = Some u → num 0 ≤ u ∧ u ≤ num 100 * n
  end.

(** A response with two cores and a usage of 150, and a response with one
    core. *)
Definition busy_data : Data :=
  {| data_SysInfo := Val {| cpu := Val {| cores := Val (num 2) |} |};
     data_CPU := Val {[ "cpu0" := Val ({[ "user" := Val [sample (num 150)] ]} : CPU) ]} |}.

Definition one_core_data : Data :=
  {| data_SysInfo := Val {| cpu := Val {| cores := Val (num 1) |} |};
     data_CPU := Val example_snapshot |}.

(** ** The aggregator on doubles *)

(** [sumCPUUsage] once more, with the numbers of JavaScript as they are:
    IEEE-754 doubles, added with rounding, and the properties of an object
    in the order in which [Object.keys] lists them. *)
Module Double.

Abbreviation double := float.

(** An object used as [Record<string, V>]: its properties in the order of
    [Object.keys].  The names of an object are distinct
    ([distinct_keys]). *)
Abbreviation Obj V := (list (string * nullable V)).

Definition distinct_keys {V} (o : Obj V) : bool := bool_decide (NoDup o.*1).

(** [o[k]]. *)
Fixpoint prop {V} (o : Obj V) (k : string) : nullable V :=
  match o with
  | [] => Undefined
  | (k', v) :: o' => if bool_decide (k' = k) then v else prop o' k
  end.

(** [Object.keys(o)]. *)
Definition Object_keys {V} (o : nullable (Obj V)) : Completion (list string) :=
  match o with
  | Val m => Normal m.*1
  | _ => Throw (TypeError "Cannot convert undefined or null to object")
  end.

Definition get {V} (o : nullable (Obj V)) (k : string) : Completion (nullable V) :=
  match o with
  | Val m => Normal (prop m k)
  | _ => Throw (TypeError "Cannot read property of undefined or null")
  end.

(** [defaultTo(d, v)] on numbers: [d] when [v] is [undefined], [null] or
    [NaN]. *)
Definition defaultTo (d : double) (v : nullable double) : double :=
  match v with
  | Val a => if is_nan a then d else a
  | _ => d
  end.

Record Stat : Type := { x : nullable double; y : nullable double }.

Abbreviation Series := (list (nullable Stat)).

Abbreviation CPU := (Obj Series).

Definition path_entry_0_y (entry : string) (cpu : nullable CPU) : nullable double :=
  let val := cpu in
  let val := path_step val (λ o, prop o entry) in
  let val := path_step val (λ a, elem a 0) in
  let val := path_step val y in
  val.

Definition pathOr_entry_0_y (d : double) (entry : string) (cpu : nullable CPU) : double :=
  defaultTo d (path_entry_0_y entry cpu).

Definition sumCPUUsage (CPUData : nullable (Obj CPU)) : Completion double :=
  let CPUData := default_param CPUData [] in
  let sum := 0%float in
  keys ← Object_keys CPUData;
  sum ← forEach keys (λ key sum,
    cpu ← get CPUData key;
    entries ← Object_keys cpu;
    forEach entries (λ entry sum,
      let val := pathOr_entry_0_y 0%float entry cpu in
      Normal (sum + val)%float) sum) sum;
  Normal sum.

(** One turn of the outer loop, named for the proofs. *)
Definition outer_body (CPUData : nullable (Obj CPU)) (key : string) (sum : double)
    : Completion double :=
  cpu ← get CPUData key;
  entries ← Object_keys cpu;
  forEach entries (λ entry sum,
    let val := pathOr_entry_0_y 0%float entry cpu in
    Normal (sum + val)%float) sum.

(** *** The accumulated total *)

(** The value of the first sample point of a series, 0 when there is
    none. *)
Definition first_sample_value (series : nullable Series) : double :=
  match series with
  | Val (Val {| y := Val v |} :: _) => if is_nan v then 0%float else v
  | _ => 0%float
  end.

(** The values that a snapshot contributes: processor after processor and,
    within a processor, series after series. *)
Definition contributions (snapshot : Obj CPU) : list double :=
  flat_map (λ processor,
    match processor.2 with
    | Val cpu => first_sample_value <$> cpu.*2
    | _ => []
    end) snapshot.

(** The values added to 0 one after the other, each addition rounding. *)
Definition float_sum (vs : list double) : double := fold_left add vs 0%float.

(** A snapshot that is an object of objects: distinct processor names,
    every processor entry an object with distinct series names. *)
Definition proper (snapshot : Obj CPU) : bool :=
  distinct_keys snapshot
  && forallb (λ processor,
       match processor.2 with
       | Val cpu => distinct_keys cpu
       | _ => false
       end) snapshot.

(** A processor with the single series [user] whose only sample point has
    the value [v]. *)
Definition processor (v : double) : nullable CPU :=
  Val [("user", Val [Val {| x := Undefined; y := Val v |}])].

(** The snapshots with the values 2^53, 1 and 1, and 1, 1 and 2^53. *)
Definition large_first : Obj CPU :=
  [("cpu0", processor 9007199254740992%float);
   ("cpu1", processor 1%float);
   ("cpu2", processor 1%float)].

Definition large_last : Obj CPU :=
  [("cpu0", processor 1%float);
   ("cpu1", processor 1%float);
   ("cpu2", processor 9007199254740992%float)].

End Double.

(** The snapshot of [Double.large_first] with exact numbers. *)
Definition large_first_exact : Obj CPU :=
  {[ "cpu0" := Val ({[ "user" := Val [sample (num 9007199254740992)] ]} : CPU);
     "cpu1" := Val ({[ "user" := Val [sample (num 1)] ]} : CPU);
     "cpu2" := Val ({[ "user" := Val [sample (num 1)] ]} : CPU) ]}.

(** * Properties *)

(** ** Numbers *)

Lemma num_0 : num 0 = 0.
Proof. reflexivity. Qed.

Lemma sum_list_cons v vs : sum_list (v :: vs) = v + sum_list vs.
Proof. reflexivity. Qed.

Lemma sum_list_app vs ws : sum_list (vs ++ ws) = sum_list vs + sum_list ws.
Proof.
  induction vs as [|v vs IH].
  - rewrite app_nil_l. change (sum_list []) with 0. by rewrite Qcplus_0_l.
  - rewrite <-app_comm_cons, !sum_list_cons, IH. ring.
Qed.

Lemma sum_list_perm vs ws : vs ≡ₚ ws → sum_list vs = sum_list ws.
Proof.
  induction 1 as [|v vs ws _ IH|v w vs|vs ws us _ IH1 _ IH2];
    rewrite ?sum_list_cons; try congruence.
  ring.
Qed.

(** ** Loops *)

Lemma forEach_ext {K S} (xs : list K) (f g : K → S → Completion S) s :
  (∀ x s', x ∈ xs → f x s' = g x s') → forEach xs f s = forEach xs g s.
Proof.
  revert s. induction xs as [|x xs IH]; intros s Hfg; [done|].
  simpl. rewrite Hfg by left.
  destruct (g x s) as [s'|e]; [|done].
  apply IH. intros y t Hy. apply Hfg. by right.
Qed.

(** A loop that adds [g x] for every [x] returns the start value plus the
    sum of the [g x]. *)
Lemma forEach_add {K} (xs : list K) (g : K → number) (s : number) :
  forEach xs (λ x sum, Normal (sum + g x)) s = Normal (s + sum_list (g <$> xs)).
Proof.
  revert s. induction xs as [|x xs IH]; intros s; simpl.
  - change (sum_list []) with 0. by rewrite Qcplus_0_r.
  - change (forEach xs (λ x sum, Normal (sum + g x)) (s + g x) =
            Normal (s + sum_list (g x :: (g <$> xs)))).
    rewrite IH, sum_list_cons. f_equal. ring.
Qed.

(** A loop ends by throwing [e] as soon as one call throws [e], when the
    other calls throw nothing else. *)
Lemma forEach_throw {K S} (xs : list K) (f : K → S → Completion S) x e s :
  x ∈ xs →
  (∀ s', f x s' = Throw e) →
  (∀ y s' e', f y s' = Throw e' → e' = e) →
  forEach xs f s = Throw e.
Proof.
  intros Hx Hthrow Honly. revert s.
  induction Hx as [x xs|x y xs _ IH]; intros s; simpl.
  - by rewrite Hthrow.
  - destruct (f y s) as [s'|e'] eqn:Hy; simpl; [by apply IH|].
    by rewrite (Honly _ _ _ Hy).
Qed.

(** ** The path into a processor record *)

Lemma pathOr_lookup (cpu : CPU) entry series :
  cpu !! entry = Some series →
  pathOr_entry_0_y (num 0) entry (Val cpu) = first_sample_value series.
Proof.
  intros Hentry. unfold pathOr_entry_0_y, path_entry_0_y, prop. simpl.
  rewrite Hentry.
  destruct series as [| |[|[| |[px [| |v]]] pts]]; reflexivity.
Qed.

(** The values found through the keys of an object are its values. *)
Lemma fmap_keys_values {V B} (m : gmap string V) (f : string → B) (g : V → B) :
  (∀ k v, m !! k = Some v → f k = g v) →
  f <$> (map_to_list m).*1 = g <$> (map_to_list m).*2.
Proof.
  intros Hfg. rewrite <-!list_fmap_compose.
  apply list_fmap_ext. intros i [k v] Hi. simpl.
  apply Hfg, elem_of_map_to_list, list_elem_of_lookup. eauto.
Qed.

(** The inner loop of [sumCPUUsage] adds the total of the processor. *)
Lemma inner_loop (cpu : CPU) (sum : number) :
  forEach (map_to_list cpu).*1 (λ entry sum,
    let val := pathOr_entry_0_y (num 0) entry (Val cpu) in
    Normal (sum + val)) sum
  = Normal (sum + processor_total (Val cpu)).
Proof.
  simpl. rewrite forEach_add. unfold processor_total.
  rewrite (fmap_keys_values cpu _ first_sample_value); [done|].
  intros k v. apply pathOr_lookup.
Qed.

Lemma sumCPUUsage_unfold (CPUData : nullable (Obj CPU)) :
  sumCPUUsage CPUData =
    (keys ← Object_keys (default_param CPUData ∅);
     forEach keys (outer_body (default_param CPUData ∅)) (num 0)).
Proof.
  unfold sumCPUUsage. simpl.
  destruct (Object_keys (default_param CPUData ∅)) as [keys|e]; simpl; [|done].
  unfold outer_body.
  by destruct (forEach keys _ (num 0)).
Qed.

Lemma outer_body_present (snapshot : Obj CPU) key cpu sum :
  snapshot !! key = Some (Val cpu) →
  outer_body (Val snapshot) key sum = Normal (sum + processor_total (Val cpu)).
Proof.
  intros Hkey. unfold outer_body, get, prop. rewrite Hkey. simpl.
  apply inner_loop.
Qed.

Lemma outer_body_nullish (snapshot : Obj CPU) key cpu sum :
  snapshot !! key = Some cpu → nullish cpu = true →
  outer_body (Val snapshot) key sum =
    Throw (TypeError "Cannot convert undefined or null to object").
Proof.
  intros Hkey Hnull. unfold outer_body, get, prop. rewrite Hkey.
  by destruct cpu.
Qed.

Lemma processors_present_lookup (snapshot : Obj CPU) :
  processors_present snapshot = true ↔
  ∀ key cpu, snapshot !! key = Some cpu → nullish cpu = false.
Proof.
  unfold processors_present.
  rewrite <-Is_true_true, forallb_True, Forall_fmap, Forall_forall.
  split.
  - intros Hall key cpu Hkey.
    apply elem_of_map_to_list, Hall in Hkey. simpl in Hkey.
    by destruct (nullish cpu).
  - intros Hall [key cpu] Hin%elem_of_map_to_list. simpl.
    by rewrite (Hall _ _ Hin).
Qed.

(** On a snapshot whose processor entries are all objects, the two loops
    compute the total. *)
Lemma sumCPUUsage_present (snapshot : Obj CPU) :
  processors_present snapshot = true →
  sumCPUUsage (Val snapshot) = Normal (snapshot_total snapshot).
Proof.
  intros Hp. pose proof (proj1 (processors_present_lookup snapshot) Hp) as Hpresent.
  rewrite sumCPUUsage_unfold. simpl.
  rewrite (forEach_ext _ _ (λ key sum, Normal (sum + processor_total (prop snapshot key)))).
  - rewrite forEach_add, num_0, Qcplus_0_l. unfold snapshot_total.
    rewrite (fmap_keys_values snapshot _ processor_total); [done|].
    intros k v Hk. unfold prop. by rewrite Hk.
  - intros key sum Hkey.
    apply list_elem_of_fmap in Hkey as ([k cpu] & -> & Hin).
    apply elem_of_map_to_list in Hin. simpl.
    pose proof (Hpresent _ _ Hin) as Hcpu. simpl in Hcpu.
    destruct cpu as [| |cpu]; try discriminate.
    unfold prop. rewrite Hin. by apply outer_body_present.
Qed.

Lemma outer_body_throws CPUData key sum e :
  outer_body (Val CPUData) key sum = Throw e →
  e = TypeError "Cannot convert undefined or null to object".
Proof.
  unfold outer_body, get. simpl.
  destruct (prop CPUData key) as [| |cpu]; simpl; try congruence.
  by rewrite forEach_add.
Qed.

(** A processor entry that is [undefined] or [null] makes [Object.keys]
    throw, and nothing catches it. *)
Lemma sumCPUUsage_nullish (snapshot : Obj CPU) :
  processors_present snapshot = false →
  sumCPUUsage (Val snapshot) =
    Throw (TypeError "Cannot convert undefined or null to object").
Proof.
  intros Hp. rewrite sumCPUUsage_unfold. simpl.
  unfold processors_present in Hp.
  apply not_true_iff_false in Hp.
  rewrite <-Is_true_true, forallb_True, Forall_fmap in Hp.
  apply not_Forall_Exists in Hp; [|intros [??]; apply _].
  apply Exists_exists in Hp as ([key cpu] & Hin & Hcpu). simpl in Hcpu.
  assert (nullish cpu = true) as Hnull by (by destruct (nullish cpu)).
  apply elem_of_map_to_list in Hin as Hkey.
  apply (forEach_throw _ _ key).
  - apply list_elem_of_fmap. by exists (key, cpu).
  - intros sum. by apply (outer_body_nullish _ _ cpu).
  - intros y sum e. apply outer_body_throws.
Qed.

Lemma sumCPUUsage_absent : sumCPUUsage Undefined = Normal (num 0).
Proof. reflexivity. Qed.

Lemma sumCPUUsage_null :
  sumCPUUsage Null = Throw (TypeError "Cannot convert undefined or null to object").
Proof. reflexivity. Qed.

(** ** The total, processor by processor *)

Lemma snapshot_total_empty : snapshot_total ∅ = num 0.
Proof. unfold snapshot_total. by rewrite map_to_list_empty. Qed.

Lemma snapshot_total_insert (snapshot : Obj CPU) key cpu :
  snapshot !! key = None →
  snapshot_total (<[key := cpu]> snapshot) =
    processor_total cpu + snapshot_total snapshot.
Proof.
  intros Hfresh. unfold snapshot_total.
  rewrite (sum_list_perm _ (processor_total <$> ((key, cpu) :: map_to_list snapshot).*2)).
  - reflexivity.
  - by rewrite map_to_list_insert.
Qed.

(** Replacing a processor entry replaces its share of the total. *)
Lemma snapshot_total_update (snapshot : Obj CPU) key old new :
  snapshot !! key = Some old →
  snapshot_total (<[key := new]> snapshot) + processor_total old =
    snapshot_total snapshot + processor_total new.
Proof.
  intros Hkey.
  rewrite <-(insert_delete_eq snapshot key new).
  rewrite <-(insert_delete_id snapshot key old) at 2 by done.
  rewrite !snapshot_total_insert by apply lookup_delete_eq. ring.
Qed.

Lemma processor_total_empty : processor_total (Val ∅) = num 0.
Proof. unfold processor_total. by rewrite map_to_list_empty. Qed.

Lemma processor_total_insert (cpu : CPU) entry series :
  cpu !! entry = None →
  processor_total (Val (<[entry := series]> cpu)) =
    first_sample_value series + processor_total (Val cpu).
Proof.
  intros Hfresh. unfold processor_total.
  rewrite (sum_list_perm _ (first_sample_value <$> ((entry, series) :: map_to_list cpu).*2)).
  - reflexivity.
  - by rewrite map_to_list_insert.
Qed.

Lemma no_first_value_0 series :
  no_first_value series = true → first_sample_value series = num 0.
Proof. by destruct series as [| |[|[| |[px [| |v]]] pts]]. Qed.

Lemma processors_present_insert (snapshot : Obj CPU) key cpu :
  processors_present snapshot = true →
  processors_present (<[key := Val cpu]> snapshot) = true.
Proof.
  rewrite !processors_present_lookup. intros Hall k c.
  rewrite lookup_insert. case_decide; [by intros [= <-]|apply Hall].
Qed.

(** ** The aggregator *)

(** C5.  A snapshot with one processor holding one series whose only sample
    point has the value [v] makes [sumCPUUsage] return [v], whatever the
    names and the timestamp. *)
Theorem sumCPUUsage_single_sample (v : number) (timestamp : nullable number)
    (processor series : string) :
  sumCPUUsage
    (Val {[ processor :=
              Val ({[ series := Val [Val {| x := timestamp; y := Val v |}] ]} : CPU) ]})
  = Normal v.
Proof.
  rewrite sumCPUUsage_present.
  - unfold snapshot_total, processor_total.
    rewrite map_to_list_singleton. simpl. rewrite map_to_list_singleton. simpl.
    f_equal. change (num 0) with 0. ring.
  - unfold processors_present. by rewrite map_to_list_singleton.
Qed.

(** C7, as the claim states it, fails: a processor entry that is [null]
    makes [sumCPUUsage] throw a [TypeError]. *)
Lemma sumCPUUsage_null_processor_throws :
  sumCPUUsage (Val {[ "cpu0" := Null ]}) =
    Throw (TypeError "Cannot convert undefined or null to object")
  ∧ ¬ ∃ total, sumCPUUsage (Val {[ "cpu0" := Null ]}) = Normal total.
Proof.
  assert (sumCPUUsage (Val {[ "cpu0" := Null ]}) =
    Throw (TypeError "Cannot convert undefined or null to object")) as Hthrow
    by reflexivity.
  split; [exact Hthrow|].
  intros [total Htotal]. rewrite Hthrow in Htotal. discriminate.
Qed.

(** [sumCPUUsage] returns exactly on the well-shaped inputs. *)
Lemma sumCPUUsage_returns_iff (CPUData : nullable (Obj CPU)) :
  (∃ total, sumCPUUsage CPUData = Normal total) ↔ well_shaped CPUData = true.
Proof.
  destruct CPUData as [| |snapshot]; simpl.
  - split; [done|]. intros _. by exists (num 0).
  - split; [|done]. intros [total Htotal]. by rewrite sumCPUUsage_null in Htotal.
  - destruct (processors_present snapshot) eqn:Hp.
    + split; [done|]. intros _. eexists. by apply sumCPUUsage_present.
    + split; [|done]. intros [total Htotal].
      by rewrite sumCPUUsage_nullish in Htotal.
Qed.

(** C7, amended.  [sumCPUUsage] does not throw when the snapshot is absent
    or is an object whose processor entries are all objects.  The absent
    snapshot gives 0; a processor with an empty series mapping contributes
    0; and so does a series that is missing, empty, or whose first sample
    point is missing or lacks the value field. *)
Theorem sumCPUUsage_total_on_well_shaped (CPUData : nullable (Obj CPU)) :
  well_shaped CPUData = true →
  (∃ total, sumCPUUsage CPUData = Normal total)
  ∧ (CPUData = Undefined → sumCPUUsage CPUData = Normal (num 0))
  ∧ ∀ snapshot, CPUData = Val snapshot →
      (∀ key, snapshot !! key = None →
         sumCPUUsage (Val (<[key := Val ∅]> snapshot)) =
           sumCPUUsage (Val snapshot))
      ∧ (∀ key cpu entry series,
           snapshot !! key = Some (Val cpu) → cpu !! entry = None →
           no_first_value series = true →
           sumCPUUsage (Val (<[key := Val (<[entry := series]> cpu)]> snapshot)) =
             sumCPUUsage (Val snapshot)).
Proof.
  intros Hshape. split; [by apply sumCPUUsage_returns_iff|].
  split; [by intros ->|].
  intros snapshot ->. simpl in Hshape. split.
  - intros key Hfresh.
    rewrite !sumCPUUsage_present by (done || by apply processors_present_insert).
    rewrite snapshot_total_insert, processor_total_empty by done.
    f_equal. change (num 0) with 0. ring.
  - intros key cpu entry series Hkey Hentry Hseries.
    rewrite !sumCPUUsage_present by (done || by apply processors_present_insert).
    f_equal.
    pose proof (snapshot_total_update snapshot key (Val cpu)
                  (Val (<[entry := series]> cpu)) Hkey) as Hupdate.
    rewrite processor_total_insert, no_first_value_0 in Hupdate by done.
    change (num 0) with 0 in Hupdate. rewrite Qcplus_0_l in Hupdate.
    set (new := snapshot_total (<[key := _]> snapshot)) in *.
    replace new with (new + processor_total (Val cpu) - processor_total (Val cpu))
      by ring.
    rewrite Hupdate. ring.
Qed.

Lemma sumCPUUsage_total_on_well_shaped_witness :
  well_shaped (Val example_snapshot) = true
  ∧ ∃ total, sumCPUUsage (Val example_snapshot) = Normal total.
Proof.
  split; [vm_compute; reflexivity|].
  apply (sumCPUUsage_total_on_well_shaped (Val example_snapshot)).
  vm_compute; reflexivity.
Defined.

(** ** Rounding and clamping *)

(** Comparisons and arithmetic on canonical rationals, read on [Q]. *)
Ltac to_Q :=
  unfold Qcle, Qclt, Qcminus, Qcopp, Qcplus, Qcmult, num, half in *;
  simpl this in *; rewrite ?Qred_correct in *;
  rewrite ?inject_Z_plus, ?inject_Z_mult in *;
  change (inject_Z 1) with 1%Q in *; change (inject_Z 0) with 0%Q in *.

(** Linear arithmetic on [Q], with the injected integers taken as atoms. *)
Ltac atoms :=
  repeat match goal with
  | |- context [inject_Z ?z] =>
      let q := fresh "q" in set (q := inject_Z z) in *; clearbody q
  | H : context [inject_Z ?z] |- _ =>
      let q := fresh "q" in set (q := inject_Z z) in *; clearbody q
  end.
Ltac qlra := to_Q; atoms; lra.

Lemma num_inj a b : num a = num b → a = b.
Proof.
  intros Heq. apply (f_equal this) in Heq. unfold num in Heq. simpl in Heq.
  apply (inject_Z_injective a b).
  by rewrite <-(Qred_correct (inject_Z a)), <-(Qred_correct (inject_Z b)), Heq.
Qed.

Lemma num_le a b : num a ≤ num b ↔ (a ≤ b)%Z.
Proof. unfold Qcle, num. simpl. by rewrite !Qred_correct, <-Zle_Qle. Qed.

Lemma num_lt a b : num a < num b ↔ (a < b)%Z.
Proof. unfold Qclt, num. simpl. by rewrite !Qred_correct, <-Zlt_Qlt. Qed.

(** [Math.round v] is the integer [z] with [z ≤ v + 0.5 < z + 1]: the
    closest integer, and the larger one of two equally close. *)
Lemma Math_round_spec v :
  ∃ z : Z, Math_round v = num z ∧ num z ≤ v + half ∧ v + half < num (z + 1).
Proof.
  unfold Math_round, lt.
  pose proof (Qfloor_le v) as Hlo. pose proof (Qlt_floor v) as Hhi.
  case_bool_decide as Hfrac.
  - exists (Qfloor v). split; [done|]. split; qlra.
  - exists (Qfloor v + 1)%Z. split; [done|]. apply Qcnot_lt_le in Hfrac.
    split; qlra.
Qed.

(** The integer of [Math_round_spec] is the only one. *)
Lemma round_unique v (a b : Z) :
  num a ≤ v + half → v + half < num (a + 1) →
  num b ≤ v + half → v + half < num (b + 1) →
  a = b.
Proof.
  intros Ha1 Ha2 Hb1 Hb2.
  assert (num a < num (b + 1)) as H1 by qlra.
  assert (num b < num (a + 1)) as H2 by qlra.
  rewrite num_lt in H1, H2. lia.
Qed.

Lemma Math_round_num z : Math_round (num z) = num z.
Proof.
  destruct (Math_round_spec (num z)) as (r & -> & Hlo & Hhi).
  f_equal. apply (round_unique (num z)); [done..| |]; qlra.
Qed.

(** A value exactly halfway between two integers rounds to the larger. *)
Lemma Math_round_half (n : Z) : Math_round (num n + half) = num (n + 1).
Proof.
  destruct (Math_round_spec (num n + half)) as (r & -> & Hlo & Hhi).
  f_equal. apply (round_unique (num n + half)); [done..| |]; qlra.
Qed.

(** Rounding keeps a value between the integers that bound it. *)
Lemma Math_round_between (a b : Z) v :
  num a ≤ v → v ≤ num b →
  ∃ z : Z, Math_round v = num z ∧ (a ≤ z ≤ b)%Z.
Proof.
  intros Ha Hb. destruct (Math_round_spec v) as (z & Hz & Hlo & Hhi).
  exists z. split; [done|].
  assert (num a < num (z + 1)) as H1 by qlra.
  assert (num z < num (b + 1)) as H2 by qlra.
  rewrite num_lt in H1, H2. lia.
Qed.

Lemma clamp_spec (min max value : number) :
  min ≤ max →
  ∃ clamped, clamp min max value = Normal clamped
    ∧ min ≤ clamped ∧ clamped ≤ max
    ∧ (value < min → clamped = min)
    ∧ (max < value → clamped = max)
    ∧ (min ≤ value → value ≤ max → clamped = value).
Proof.
  intros Hrange. unfold clamp, gt, lt.
  rewrite (bool_decide_eq_false_2 (max < min)) by by apply Qcle_not_lt.
  eexists. split; [done|].
  repeat case_bool_decide; repeat split; try done;
    intros; try qlra; exfalso; qlra.
Qed.

Lemma clamp_throws (min max value : number) :
  max < min →
  clamp min max value =
    Throw (PlainError "min must not be greater than max in clamp(min, max, value)").
Proof. intros Hrange. unfold clamp, gt. by rewrite bool_decide_eq_true_2. Qed.

Lemma capacity_nonneg (c : N) : num 0 ≤ num 100 * num (Z.of_N c).
Proof.
  assert (num 100 * num (Z.of_N c) = num (100 * Z.of_N c)) as ->.
  { apply Qc_is_canon. to_Q. reflexivity. }
  apply num_le. lia.
Qed.

(** ** The normalizer *)

(** With a core count that is a non-negative integer, [normalizeValue]
    returns the rounded clamped value, an integer between 0 and 100 times
    the core count. *)
Lemma normalizeValue_returns (value : number) (c : N) :
  ∃ clamped z,
    clamp (num 0) (num 100 * num (Z.of_N c)) value = Normal clamped
    ∧ normalizeValue value (num (Z.of_N c)) = Normal (num z)
    ∧ Math_round clamped = num z
    ∧ (0 ≤ z ≤ 100 * Z.of_N c)%Z.
Proof.
  destruct (clamp_spec (num 0) (num 100 * num (Z.of_N c)) value)
    as (clamped & Hclamp & Hlo & Hhi & _); [apply capacity_nonneg|].
  assert (num 100 * num (Z.of_N c) = num (100 * Z.of_N c)) as Hcap.
  { apply Qc_is_canon. to_Q. reflexivity. }
  rewrite Hcap in Hhi.
  destruct (Math_round_between 0 (100 * Z.of_N c) clamped Hlo Hhi)
    as (z & Hround & Hz).
  exists clamped, z. repeat split; try done; try lia.
  unfold normalizeValue. rewrite Hclamp. simpl. by rewrite Hround.
Qed.

(** C2.  For every total [t] and every core count [c] that is a
    non-negative integer, [normalizeValue] returns an integer [r] with
    [0 ≤ r ≤ 100 × c]: never negative, never above the capacity.  With no
    core the result is 0; [normalizeValue(-5, 2)] is 0 and
    [normalizeValue(1000, 2)] is 200. *)
Theorem normalizeValue_in_range (t : number) (c : N) :
  (∃ (r : number) (z : Z),
     normalizeValue t (num (Z.of_N c)) = Normal r
     ∧ r = num z
     ∧ num 0 ≤ r ∧ r ≤ num 100 * num (Z.of_N c))
  ∧ normalizeValue t (num 0) = Normal (num 0)
  ∧ normalizeValue (num (-5)) (num 2) = Normal (num 0)
  ∧ normalizeValue (num 1000) (num 2) = Normal (num 200).
Proof.
  split; [|split; [|split; reflexivity]].
  - destruct (normalizeValue_returns t c) as (clamped & z & _ & Hnorm & _ & Hz).
    exists (num z), z. repeat split; try done.
    + apply num_le. lia.
    + assert (num 100 * num (Z.of_N c) = num (100 * Z.of_N c)) as ->.
      { apply Qc_is_canon. to_Q. reflexivity. }
      apply num_le. lia.
  - destruct (normalizeValue_returns t 0) as (clamped & z & _ & Hnorm & _ & Hz).
    simpl in Hnorm. rewrite Hnorm. do 2 f_equal. simpl in Hz. lia.
Qed.

(** C8.  [normalizeValue] first clamps the total into [0, 100 × c] and
    then rounds the clamped value to the closest integer, a value exactly
    halfway between two integers going to the larger one; so
    [normalizeValue(50.5, 1)] is 51. *)
Theorem normalizeValue_clamps_then_rounds_half_up (total : number) (c : N) :
  (∃ (clamped : number) (z : Z),
     clamp (num 0) (num 100 * num (Z.of_N c)) total = Normal clamped
     ∧ num 0 ≤ clamped ∧ clamped ≤ num 100 * num (Z.of_N c)
     ∧ (total < num 0 → clamped = num 0)
     ∧ (num 100 * num (Z.of_N c) < total → clamped = num 100 * num (Z.of_N c))
     ∧ (num 0 ≤ total → total ≤ num 100 * num (Z.of_N c) → clamped = total)
     ∧ normalizeValue total (num (Z.of_N c)) = Normal (num z)
     ∧ num z - half ≤ clamped ∧ clamped < num z + half
     ∧ (∀ n : Z, clamped = num n + half → z = (n + 1)%Z))
  ∧ (∀ n : Z, Math_round (num n + half) = num (n + 1))
  ∧ normalizeValue (Q2Qc (101 # 2)) (num 1) = Normal (num 51).
Proof.
  split; [|split; [apply Math_round_half|reflexivity]].
  destruct (clamp_spec (num 0) (num 100 * num (Z.of_N c)) total)
    as (clamped & Hclamp & Hlo & Hhi & Hbelow & Habove & Hin);
    [apply capacity_nonneg|].
  destruct (Math_round_spec clamped) as (z & Hround & Hzlo & Hzhi).
  exists clamped, z. repeat split; try done.
  - unfold normalizeValue. rewrite Hclamp. simpl. by rewrite Hround.
  - qlra.
  - qlra.
  - intros n ->. apply num_inj. by rewrite <-Hround, Math_round_half.
Qed.

(** C10.  [normalizeValue] is idempotent: with a core count that is a
    non-negative integer, normalizing the result again returns it. *)
Theorem normalizeValue_idempotent (v : number) (c : N) :
  ∃ r, normalizeValue v (num (Z.of_N c)) = Normal r
    ∧ normalizeValue r (num (Z.of_N c)) = Normal r.
Proof.
  destruct (normalizeValue_returns v c) as (clamped & z & _ & Hnorm & _ & Hz).
  exists (num z). split; [done|].
  destruct (clamp_spec (num 0) (num 100 * num (Z.of_N c)) (num z))
    as (again & Hclamp & _ & _ & _ & _ & Hin); [apply capacity_nonneg|].
  unfold normalizeValue. rewrite Hclamp. simpl.
  rewrite Hin, Math_round_num; [done| |].
  - apply num_le. lia.
  - assert (num 100 * num (Z.of_N c) = num (100 * Z.of_N c)) as ->.
    { apply Qc_is_canon. to_Q. reflexivity. }
    apply num_le. lia.
Qed.

(** ** The status text *)

(** C3.  [innerText] follows a strict priority: with an error it returns
    the reason of the error as it is, whatever the value and the loading
    flag; without an error and while loading it returns ["Loading..."];
    otherwise it returns the value followed by a percent sign. *)
Theorem innerText_priority (Number_toString : number → string)
    (v : number) (l : bool) (e : APIError) :
  innerText Number_toString v l (Some e) = reason e
  ∧ innerText Number_toString v true None = "Loading..."
  ∧ innerText Number_toString v false None = Number_toString v +:+ "%"
  ∧ innerText Number_toString (num 0) false
      (Some {| field := None; reason := "boom" |}) = "boom".
Proof. by destruct l. Qed.

(** ** The callbacks *)

Lemma onRejected_usedCPU captured st : usedCPU (onRejected captured st) = usedCPU st.
Proof. unfold onRejected. by destruct (truthy_cell captured). Qed.

Lemma onRejected_numCores captured st : numCores (onRejected captured st) = numCores st.
Proof. unfold onRejected. by destruct (truthy_cell captured). Qed.

(** With no usage value so far, a failure shows the generic error and ends
    the loading indicator. *)
Lemma onRejected_no_value st :
  onRejected None st =
    {| loading := false;
       error := Some {| field := None; reason := "Error" |};
       usedCPU := usedCPU st; numCores := numCores st |}.
Proof. reflexivity. Qed.

(** With a usage value other than 0, a failure changes nothing. *)
Lemma onRejected_stale_value v st : v ≠ num 0 → onRejected (Some v) st = st.
Proof.
  intros Hv. unfold onRejected, truthy_cell. by rewrite bool_decide_eq_true_2.
Qed.

(** With the usage value 0, a failure is handled as with no value. *)
Lemma onRejected_zero_value st :
  onRejected (Some (num 0)) st = onRejected None st.
Proof. reflexivity. Qed.

(** A response without a truthy core count: the [then] callback ends after
    its first two updates and throws nothing. *)
Lemma onFulfilled_no_cores data st :
  truthy (path_SysInfo_cpu_cores data) = false →
  onFulfilled data st = (setError None (setLoading false st), None).
Proof.
  intros Hcores. unfold onFulfilled.
  destruct (path_SysInfo_cpu_cores data) as [| |n]; try done.
  by rewrite Hcores.
Qed.

(** The [then] callback stores a core count only when it is truthy, and a
    usage value only together with a core count. *)
Lemma onFulfilled_cells data st :
  let st' := (onFulfilled data st).1 in
  (numCores st' = numCores st ∧ usedCPU st' = usedCPU st)
  ∨ (∃ n, n ≠ num 0 ∧ numCores st' = Some n).
Proof.
  unfold onFulfilled.
  destruct (path_SysInfo_cpu_cores data) as [| |n] eqn:Hcores; simpl; auto.
  case_bool_decide as Hn; simpl; auto.
  right. exists n. split; [done|].
  by destruct (_ ≫= _).
Qed.

(** In every state of the component, the stored core count is never 0, and
    a usage value is stored only once a core count is. *)
Lemma reachable_cells st :
  reachable st →
  numCores st ≠ Some (num 0) ∧ (numCores st = None → usedCPU st = None).
Proof.
  induction 1 as [|captured r st _ [IHcores IHused]]; [done|].
  destruct r as [data|]; simpl.
  - pose proof (onFulfilled_cells data st) as Hcells.
    destruct (onFulfilled data st) as [st' thrown]. simpl in Hcells.
    assert (numCores st' ≠ Some (num 0) ∧ (numCores st' = None → usedCPU st' = None))
      as [Hcores Hused].
    { destruct Hcells as [[-> ->]|(n & Hn & ->)]; [done|].
      split; [congruence|done]. }
    destruct thrown; [|done].
    by rewrite onRejected_numCores, onRejected_usedCPU.
  - by rewrite onRejected_numCores, onRejected_usedCPU.
Qed.

(** ** The component *)

Lemma refresh_rejected_no_value st :
  usedCPU st = None →
  refresh Rejected st =
    {| loading := false;
       error := Some {| field := None; reason := "Error" |};
       usedCPU := None; numCores := numCores st |}.
Proof.
  intros Hused. unfold refresh. simpl.
  rewrite Hused, onRejected_no_value. by rewrite Hused.
Qed.

Lemma refresh_rejected_stale_value st v :
  usedCPU st = Some v → v ≠ num 0 → refresh Rejected st = st.
Proof.
  intros Hused Hv. unfold refresh. simpl. rewrite Hused.
  by apply onRejected_stale_value.
Qed.

(** A failure after the usage value 0 is handled as a failure before any
    value: the error is set. *)
Lemma refresh_rejected_zero_value st :
  usedCPU st = Some (num 0) →
  refresh Rejected st =
    {| loading := false;
       error := Some {| field := None; reason := "Error" |};
       usedCPU := Some (num 0); numCores := numCores st |}.
Proof.
  intros Hused. unfold refresh. simpl.
  rewrite Hused, onRejected_zero_value, onRejected_no_value. by rewrite Hused.
Qed.

(** C4, at the input on which the code departs from the claim.  A first
    response with two cores and an empty snapshot stores the usage value 0;
    the failure of the next fetch then sets the error, and the status text
    turns from the value to the reason of the error. *)
Theorem failure_after_zero_reading_sets_error :
  let st := refresh (Resolved zero_usage_data) initial in
  st = {| loading := false; error := None;
          usedCPU := Some (num 0); numCores := Some (num 2) |}
  ∧ refresh Rejected st =
      {| loading := false;
         error := Some {| field := None; reason := "Error" |};
         usedCPU := Some (num 0); numCores := Some (num 2) |}
  ∧ ∀ Number_toString,
      gauge_innerText Number_toString st = Number_toString (num 0) +:+ "%"
      ∧ gauge_innerText Number_toString (refresh Rejected st) = "Error".
Proof. repeat split. Qed.

Lemma run_reachable rs st : reachable st → reachable (run rs st).
Proof.
  revert st. induction rs as [|r rs IH]; intros st Hst; [done|].
  simpl. apply IH. by apply reachable_settle.
Qed.

(** Were the core count 0 ever stored, the capacity would be 0: it is the
    guard of the [then] callback that keeps the capacity away from 0. *)
Lemma gauge_max_zero_cores st :
  numCores st = Some (num 0) → gauge_max st = num 0.
Proof.
  intros Hcores. unfold gauge_max. rewrite Hcores.
  apply Qc_is_canon. reflexivity.
Qed.

(** C9.  When a response has no core count, or the core count 0, the
    [then] callback ends after clearing the loading flag and the error, and
    throws nothing: the stored usage value and core count stay as they
    were, and with them what the gauge shows. *)
Theorem missing_cores_keep_reading (data : nullable Data) (st : State) :
  truthy (path_SysInfo_cpu_cores data) = false →
  onFulfilled data st =
    ({| loading := false; error := None;
        usedCPU := usedCPU st; numCores := numCores st |}, None)
  ∧ refresh (Resolved data) st =
      {| loading := false; error := None;
         usedCPU := usedCPU st; numCores := numCores st |}
  ∧ gauge_value (refresh (Resolved data) st) = gauge_value st
  ∧ gauge_max (refresh (Resolved data) st) = gauge_max st.
Proof.
  intros Hcores. unfold refresh, settle.
  by rewrite (onFulfilled_no_cores data st Hcores).
Qed.

Lemma missing_cores_keep_reading_witness :
  truthy (path_SysInfo_cpu_cores no_cores_data) = false
  ∧ refresh (Resolved no_cores_data) example_state = example_state.
Proof.
  split; [reflexivity|].
  by destruct (missing_cores_keep_reading no_cores_data example_state)
    as (_ & -> & _).
Defined.

(** * Further properties *)

(** ** The aggregator: what it reads *)

Lemma processor_total_update (cpu : CPU) entry old new :
  cpu !! entry = Some old →
  processor_total (Val (<[entry := new]> cpu)) + first_sample_value old =
    processor_total (Val cpu) + first_sample_value new.
Proof.
  intros Hentry.
  rewrite <-(insert_delete_eq cpu entry new).
  rewrite <-(insert_delete_id cpu entry old) at 2 by done.
  rewrite !processor_total_insert by apply lookup_delete_eq. ring.
Qed.

Lemma plus_cancel_r (a b c d : number) : a + c = b + d → c = d → a = b.
Proof.
  intros Hsum ->. replace a with (a + d - d) by ring. rewrite Hsum. ring.
Qed.

(** Replacing the record of a processor by another record keeps the
    snapshot as well or as badly shaped as it was. *)
Lemma processors_present_replace (snapshot : Obj CPU) key cpu cpu' :
  snapshot !! key = Some (Val cpu) →
  processors_present (<[key := Val cpu']> snapshot) = processors_present snapshot.
Proof.
  intros Hkey. apply eq_true_iff_eq. rewrite !processors_present_lookup.
  split; intros Hall k c Hk.
  - destruct (decide (key = k)) as [<-|Hne].
    + by rewrite Hkey in Hk; injection Hk as <-.
    + apply (Hall k). by rewrite lookup_insert_ne.
  - rewrite lookup_insert in Hk. case_decide; [by injection Hk as <-|].
    by apply (Hall k).
Qed.

(** X2.  [sumCPUUsage] reads nothing of a series but the value of its first
    sample point: another timestamp for that point and other sample points
    after it leave the outcome as it is. *)
Theorem sumCPUUsage_reads_first_value_only (snapshot : Obj CPU) key (cpu : CPU)
    entry ts ts' v rest rest' :
  snapshot !! key = Some (Val cpu) →
  cpu !! entry = Some (Val (Val {| x := ts; y := v |} :: rest)) →
  sumCPUUsage
    (Val (<[key := Val (<[entry := Val (Val {| x := ts'; y := v |} :: rest')]> cpu)]>
            snapshot))
  = sumCPUUsage (Val snapshot).
Proof.
  intros Hkey Hentry.
  set (cpu' := <[entry := _]> cpu).
  pose proof (processors_present_replace snapshot key cpu cpu' Hkey) as Hshape.
  destruct (processors_present snapshot) eqn:Hp.
  - rewrite !sumCPUUsage_present by done. f_equal.
    apply (plus_cancel_r _ _ (processor_total (Val cpu)) (processor_total (Val cpu')));
      [by apply snapshot_total_update|].
    symmetry.
    apply (plus_cancel_r _ _
             (first_sample_value (Val (Val {| x := ts; y := v |} :: rest)))
             (first_sample_value (Val (Val {| x := ts'; y := v |} :: rest'))));
      [by apply processor_total_update|done].
  - by rewrite !sumCPUUsage_nullish.
Qed.

Lemma sumCPUUsage_reads_first_value_only_witness :
  sumCPUUsage
    (Val (<["cpu0" := Val (<["user" := Val [sample (num 30); sample (num 7)]]>
                             ({[ "user" := Val [sample (num 30)] ]} : CPU))]>
            example_snapshot))
  = sumCPUUsage (Val example_snapshot).
Proof.
  apply (sumCPUUsage_reads_first_value_only example_snapshot "cpu0"
           ({[ "user" := Val [sample (num 30)] ]} : CPU) "user"
           Undefined Undefined (Val (num 30)) [] [sample (num 7)]);
    vm_compute; reflexivity.
Defined.

(** ** The normalizer: errors, order, fixed points *)

(** Linear arithmetic on [Q] with the constant 100 read as a numeral. *)
Ltac qlra_100 :=
  to_Q; change (inject_Z 100) with (100 # 1)%Q in *; atoms; lra.

Lemma capacity_negative (numCores : number) :
  num 100 * numCores < num 0 ↔ numCores < num 0.
Proof. split; intros H; qlra_100. Qed.

Lemma normalizeValue_negative (value numCores : number) :
  numCores < num 0 →
  normalizeValue value numCores =
    Throw (PlainError "min must not be greater than max in clamp(min, max, value)").
Proof.
  intros Hneg. unfold normalizeValue.
  by rewrite clamp_throws by by apply capacity_negative.
Qed.

(** X4.  [normalizeValue] throws exactly when the core count is negative,
    whatever the value: the error is the one of [clamp], whose lower bound 0
    then lies above its upper bound.  With any other core count it
    returns. *)
Theorem normalizeValue_throws_iff_negative_cores (value numCores : number) :
  (normalizeValue value numCores =
     Throw (PlainError "min must not be greater than max in clamp(min, max, value)")
   ↔ numCores < num 0)
  ∧ ((∃ r, normalizeValue value numCores = Normal r) ↔ ¬ numCores < num 0).
Proof.
  unfold normalizeValue.
  destruct (decide (numCores < num 0)) as [Hneg|Hpos].
  - rewrite clamp_throws by by apply capacity_negative.
    split; [done|]. split; [by intros [r ?]|done].
  - destruct (clamp_spec (num 0) (num 100 * numCores) value) as (clamped & -> & _).
    { apply Qcnot_lt_le. by rewrite capacity_negative. }
    simpl. split; [done|]. split; [done|]. intros _. by eexists.
Qed.

Lemma Math_round_mono (v1 v2 : number) :
  v1 ≤ v2 → Math_round v1 ≤ Math_round v2.
Proof.
  intros Hle.
  destruct (Math_round_spec v1) as (z1 & -> & Hlo1 & _).
  destruct (Math_round_spec v2) as (z2 & -> & _ & Hhi2).
  assert (num z1 < num (z2 + 1)) as Hlt by qlra.
  rewrite num_lt in Hlt. apply num_le. lia.
Qed.

Lemma clamp_mono (min max v1 v2 c1 c2 : number) :
  v1 ≤ v2 →
  clamp min max v1 = Normal c1 → clamp min max v2 = Normal c2 → c1 ≤ c2.
Proof.
  unfold clamp, gt, lt. intros Hle.
  case_bool_decide as Hrange; [done|].
  repeat case_bool_decide; intros [= <-] [= <-]; qlra.
Qed.

(** X5.  [normalizeValue] keeps the order: with a core count that is not
    negative, a larger value never gives a smaller result. *)
Theorem normalizeValue_monotone (v1 v2 numCores : number) :
  num 0 ≤ numCores → v1 ≤ v2 →
  ∃ r1 r2,
    normalizeValue v1 numCores = Normal r1
    ∧ normalizeValue v2 numCores = Normal r2
    ∧ r1 ≤ r2.
Proof.
  intros Hcores Hle. unfold normalizeValue.
  assert (num 0 ≤ num 100 * numCores) as Hrange by qlra_100.
  destruct (clamp_spec (num 0) (num 100 * numCores) v1 Hrange) as (c1 & Hc1 & _).
  destruct (clamp_spec (num 0) (num 100 * numCores) v2 Hrange) as (c2 & Hc2 & _).
  rewrite Hc1, Hc2. simpl. eexists _, _. split; [done|]. split; [done|].
  apply Math_round_mono.
  by apply (clamp_mono (num 0) (num 100 * numCores) v1 v2).
Qed.

Lemma normalizeValue_monotone_witness :
  ∃ r1 r2,
    normalizeValue (num 10) (num 1) = Normal r1
    ∧ normalizeValue (num 250) (num 1) = Normal r2
    ∧ r1 ≤ r2.
Proof.
  apply (normalizeValue_monotone (num 10) (num 250) (num 1));
    vm_compute; discriminate.
Defined.

(** X6.  The values that [normalizeValue] returns unchanged are exactly the
    integers from 0 to 100 times the core count. *)
Theorem normalizeValue_fixed_points (v : number) (c : N) :
  normalizeValue v (num (Z.of_N c)) = Normal v
  ↔ ∃ z : Z, v = num z ∧ (0 ≤ z ≤ 100 * Z.of_N c)%Z.
Proof.
  split.
  - intros Hfix.
    destruct (normalizeValue_returns v c) as (clamped & z & _ & Hnorm & _ & Hz).
    rewrite Hfix in Hnorm. injection Hnorm as ->. by exists z.
  - intros (z & -> & Hz).
    destruct (clamp_spec (num 0) (num 100 * num (Z.of_N c)) (num z))
      as (again & Hclamp & _ & _ & _ & _ & Hin); [apply capacity_nonneg|].
    unfold normalizeValue. rewrite Hclamp. simpl.
    rewrite Hin, Math_round_num; [done| |].
    + apply num_le. lia.
    + assert (num 100 * num (Z.of_N c) = num (100 * Z.of_N c)) as ->.
      { apply Qc_is_canon. to_Q. reflexivity. }
      apply num_le. lia.
Qed.

(** ** The component: one refresh *)

Lemma onFulfilled_loading data st : loading (onFulfilled data st).1 = false.
Proof.
  unfold onFulfilled.
  destruct (path_SysInfo_cpu_cores data) as [| |n]; simpl; try done.
  case_bool_decide; simpl; [|done]. by destruct (_ ≫= _).
Qed.

Lemma onFulfilled_error data st : error (onFulfilled data st).1 = None.
Proof.
  unfold onFulfilled.
  destruct (path_SysInfo_cpu_cores data) as [| |n]; simpl; try done.
  case_bool_decide; simpl; [|done]. by destruct (_ ≫= _).
Qed.

(** A response with a truthy core count whose computation returns: both
    cells are stored. *)
Lemma onFulfilled_returns (data : Data) st n r :
  path_SysInfo_cpu_cores (Val data) = Val n → n ≠ num 0 →
  (used ← sumCPUUsage (data_CPU data); normalizeValue used n) = Normal r →
  onFulfilled (Val data) st =
    ({| loading := false; error := None;
        usedCPU := Some r; numCores := Some n |}, None).
Proof.
  intros Hcores Hn Hr. unfold onFulfilled. rewrite Hcores. simpl.
  rewrite bool_decide_eq_true_2 by done. simpl.
  change (CPUData ← Normal (data_CPU data); used ← sumCPUUsage CPUData;
          normalizeValue used n)
    with (used ← sumCPUUsage (data_CPU data); normalizeValue used n).
  by rewrite Hr.
Qed.

(** A response with a truthy core count whose computation throws: the core
    count is stored, the usage value is not. *)
Lemma onFulfilled_throws (data : Data) st n e :
  path_SysInfo_cpu_cores (Val data) = Val n → n ≠ num 0 →
  (used ← sumCPUUsage (data_CPU data); normalizeValue used n) = Throw e →
  onFulfilled (Val data) st =
    ({| loading := false; error := None;
        usedCPU := usedCPU st; numCores := Some n |}, Some e).
Proof.
  intros Hcores Hn He. unfold onFulfilled. rewrite Hcores. simpl.
  rewrite bool_decide_eq_true_2 by done. simpl.
  change (CPUData ← Normal (data_CPU data); used ← sumCPUUsage CPUData;
          normalizeValue used n)
    with (used ← sumCPUUsage (data_CPU data); normalizeValue used n).
  by rewrite He.
Qed.

Lemma sumCPUUsage_well_shaped CPUData :
  well_shaped CPUData = true → sumCPUUsage CPUData = Normal (total_of CPUData).
Proof.
  destruct CPUData as [| |snapshot]; simpl; [done..|].
  apply sumCPUUsage_present.
Qed.

Lemma sumCPUUsage_ill_shaped CPUData :
  well_shaped CPUData = false →
  sumCPUUsage CPUData = Throw (TypeError "Cannot convert undefined or null to object").
Proof.
  destruct CPUData as [| |snapshot]; simpl; [done..|].
  apply sumCPUUsage_nullish.
Qed.

(** X8.  A response with a truthy core count whose [then] callback throws,
    because the core count is negative or because the snapshot holds a
    processor entry that is [undefined] or [null]: the core count is stored
    all the same, the usage value stays the one of before, and the [catch]
    callback sets the error unless a usage value other than 0 was there. *)
Theorem refresh_with_throwing_callback (data : Data) (st : State) (n : number) :
  path_SysInfo_cpu_cores (Val data) = Val n → n ≠ num 0 →
  n < num 0 ∨ well_shaped (data_CPU data) = false →
  refresh (Resolved (Val data)) st =
    {| loading := false;
       error := if truthy_cell (usedCPU st) then None
                else Some {| field := None; reason := "Error" |};
       usedCPU := usedCPU st; numCores := Some n |}.
Proof.
  intros Hcores Hn Hthrow.
  assert (∃ e, (used ← sumCPUUsage (data_CPU data); normalizeValue used n) = Throw e)
    as [e He].
  { destruct (well_shaped (data_CPU data)) eqn:Hshape.
    - destruct Hthrow as [Hneg|]; [|done].
      rewrite sumCPUUsage_well_shaped by done. simpl.
      eexists. by apply normalizeValue_negative.
    - rewrite sumCPUUsage_ill_shaped by done. by eexists. }
  unfold refresh, settle.
  rewrite (onFulfilled_throws data st n e Hcores Hn He).
  unfold onRejected. by destruct (truthy_cell (usedCPU st)).
Qed.

Lemma refresh_with_throwing_callback_witness :
  refresh (Resolved (Val broken_data)) example_state =
    {| loading := false; error := None;
       usedCPU := Some (num 50); numCores := Some (num 2) |}.
Proof.
  apply (refresh_with_throwing_callback broken_data example_state (num 2)).
  - reflexivity.
  - vm_compute; discriminate.
  - right. vm_compute; reflexivity.
Defined.

(** ** The component: every state *)

Lemma onRejected_loading captured st :
  loading (onRejected captured st) = true → onRejected captured st = st.
Proof. unfold onRejected. by destruct (truthy_cell captured). Qed.

Lemma onRejected_not_loading captured st :
  loading st = false → loading (onRejected captured st) = false.
Proof. unfold onRejected. by destruct (truthy_cell captured). Qed.

Lemma onRejected_error captured st :
  error (onRejected captured st) = error st
  ∨ error (onRejected captured st) = Some {| field := None; reason := "Error" |}.
Proof. unfold onRejected. destruct (truthy_cell captured); auto. Qed.

(** While the loading flag is set, nothing has happened yet; and the only
    error ever set is the generic one. *)
Lemma reachable_flags st :
  reachable st →
  (loading st = true → st = initial)
  ∧ (error st = None ∨ error st = Some {| field := None; reason := "Error" |}).
Proof.
  induction 1 as [|captured r st _ [IHloading IHerror]]; [by split; auto|].
  destruct r as [data|]; simpl.
  - pose proof (onFulfilled_loading data st) as Hloading.
    pose proof (onFulfilled_error data st) as Herror.
    destruct (onFulfilled data st) as [st' thrown]. simpl in *.
    destruct thrown as [e|].
    + split.
      * intros Hl. by rewrite onRejected_not_loading in Hl.
      * destruct (onRejected_error captured st') as [-> | ->]; auto.
    + split; [congruence|auto].
  - split.
    + intros Hl. pose proof (onRejected_loading _ _ Hl) as Heq.
      rewrite Heq in *. by apply IHloading.
    + destruct (onRejected_error captured st) as [-> | ->]; auto.
Qed.

(** ** The component: one fetch after the other *)

(** After a refresh, an error is there only beside a usage value that is
    missing or 0. *)
Lemma refresh_error r st :
  (error st ≠ None → truthy_cell (usedCPU st) = false) →
  error (refresh r st) ≠ None → truthy_cell (usedCPU (refresh r st)) = false.
Proof.
  intros Hst. unfold refresh. destruct r as [data|]; simpl.
  - unfold onFulfilled.
    destruct (path_SysInfo_cpu_cores data) as [| |n]; simpl; try done.
    case_bool_decide; simpl; [|done].
    destruct (_ ≫= _) as [r|e]; simpl; [done|].
    unfold onRejected.
    destruct (truthy_cell (usedCPU st)) eqn:Hused; simpl; [done|].
    by intros _.
  - unfold onRejected.
    destruct (truthy_cell (usedCPU st)) eqn:Hused; simpl; [|by intros _].
    intros Herr. by apply Hst in Herr.
Qed.

Lemma run_error rs st :
  (error st ≠ None → truthy_cell (usedCPU st) = false) →
  error (run rs st) ≠ None → truthy_cell (usedCPU (run rs st)) = false.
Proof.
  revert st. induction rs as [|r rs IH]; intros st Hst; [done|].
  simpl. apply IH. by apply refresh_error.
Qed.

(** X10.  With one fetch after the other, the error is never set beside a
    usage value other than 0: whenever the status text is the error, the
    gauge shows the value 0. *)
Theorem error_only_beside_zero (rs : list Fetch) :
  error (run rs initial) ≠ None →
  truthy_cell (usedCPU (run rs initial)) = false
  ∧ gauge_value (run rs initial) = num 0.
Proof.
  intros Herr.
  assert (truthy_cell (usedCPU (run rs initial)) = false) as Hused
    by by apply run_error.
  split; [done|].
  unfold gauge_value, truthy_cell in *.
  destruct (usedCPU (run rs initial)) as [v|]; [|done].
  case_bool_decide as Hv; [done|].
  by destruct (decide (v = num 0)).
Qed.

Lemma error_only_beside_zero_witness :
  error (run [Resolved zero_usage_data; Rejected] initial) ≠ None
  ∧ gauge_value (run [Resolved zero_usage_data; Rejected] initial) = num 0.
Proof.
  assert (error (run [Resolved zero_usage_data; Rejected] initial) ≠ None)
    as Herr by (vm_compute; discriminate).
  split; [exact Herr|].
  by destruct (error_only_beside_zero _ Herr).
Defined.

(** ** The disk drawer *)

(** X12.  The size with which the form starts is the size of the disk when
    there is a disk and its size is not 0, and the maximum size otherwise,
    also for a disk of size 0; so it is 0 only when the maximum size is 0
    and no disk brings another size. *)
Theorem initial_size (disk : option DiskDrawer.Disk) (maximumSize : number) :
  DiskDrawer.size (DiskDrawer.initialValues disk maximumSize) =
    match disk with
    | Some d =>
        if bool_decide (DiskDrawer.disk_size d ≠ num 0)
        then DiskDrawer.disk_size d
        else maximumSize
    | None => maximumSize
    end
  ∧ (DiskDrawer.size (DiskDrawer.initialValues disk maximumSize) = num 0
     ↔ maximumSize = num 0
       ∧ ∀ d, disk = Some d → DiskDrawer.disk_size d = num 0).
Proof.
  assert (∀ n : number, DiskDrawer.or_else (Some n) (num 0) = n) as Hor.
  { intros n. unfold DiskDrawer.or_else, truthy_cell.
    case_bool_decide as Hn; [done|].
    by destruct (decide (n = num 0)). }
  unfold DiskDrawer.initialValues. cbn [DiskDrawer.size]. rewrite Hor.
  destruct disk as [d|]; simpl.
  - unfold truthy_cell. case_bool_decide as Hd.
    + split; [done|]. split; [done|]. intros [_ Hall]. by apply Hall.
    + split; [done|]. split.
      * intros ->. split; [done|]. intros d' [= <-].
        by destruct (decide (DiskDrawer.disk_size d = num 0)).
      * by intros [-> _].
  - split; [done|]. split; [by intros ->|by intros [-> _]].
Qed.

(** X13.  Which fields of the form are disabled depends on the mode alone:
    the label in resize mode only, the size in rename mode only, and the
    filesystem in every mode but create.  So renaming can change the label
    and nothing else, and resizing the size and nothing else. *)
Theorem disabled_fields (mode : DiskDrawer.DrawerMode) :
  DiskDrawer.label_disabled mode = bool_decide (mode = DiskDrawer.resize)
  ∧ DiskDrawer.size_disabled mode = bool_decide (mode = DiskDrawer.rename)
  ∧ DiskDrawer.filesystem_disabled mode = bool_decide (mode ≠ DiskDrawer.create)
  ∧ DiskDrawer.filesystem_disabled mode =
      DiskDrawer.label_disabled mode || DiskDrawer.size_disabled mode
  ∧ DiskDrawer.label_disabled mode && DiskDrawer.size_disabled mode = false.
Proof. by destruct mode. Qed.

(** X14.  In every mode the title of the drawer is the label of its submit
    button followed by the word Disk. *)
Theorem title_of_submit_label (mode : DiskDrawer.DrawerMode) :
  DiskDrawer.getTitle mode = DiskDrawer.submitLabelMap mode +:+ " Disk".
Proof. by destruct mode. Qed.

Lemma validate_RenameDiskSchema (value : DiskDrawer.text) :
  DiskDrawer.validate DiskDrawer.RenameDiskSchema value =
    match value with
    | [] => ["Label is required.";
             "Label must contain between 3 and 32 characters."]
    | _ =>
        if bool_decide (3 ≤ length value ≤ 32)%nat then []
        else ["Label must contain between 3 and 32 characters."]
    end.
Proof.
  unfold DiskDrawer.validate, DiskDrawer.RenameDiskSchema,
    DiskDrawer.min, DiskDrawer.max.
  destruct value as [|c value]; [done|].
  cbn [omap list_omap DiskDrawer.required].
  case_bool_decide as Hmin; case_bool_decide as Hmax;
    case_bool_decide as Hboth; try done; lia.
Qed.

(** X15.  [RenameDiskSchema] accepts a label exactly when its length is
    between 3 and 32.  A label it rejects gets one of its two messages, and
    the message that the label is required goes to the empty label only. *)
Theorem RenameDiskSchema_accepts (value : DiskDrawer.text) :
  (DiskDrawer.validate DiskDrawer.RenameDiskSchema value = []
   ↔ (3 ≤ length value ≤ 32)%nat)
  ∧ ("Label is required." ∈ DiskDrawer.validate DiskDrawer.RenameDiskSchema value
     ↔ value = [])
  ∧ ∀ message,
      message ∈ DiskDrawer.validate DiskDrawer.RenameDiskSchema value →
      message = "Label is required."
      ∨ message = "Label must contain between 3 and 32 characters.".
Proof.
  rewrite validate_RenameDiskSchema.
  destruct value as [|c value].
  - split; [split; [done|simpl; lia]|]. split; [split; [done|left]|].
    intros message. rewrite !elem_of_cons, elem_of_nil. naive_solver.
  - case_bool_decide as Hlen.
    + split; [done|]. split; [split; [by intros ?%elem_of_nil|done]|].
      by intros message ?%elem_of_nil.
    + split; [split; [done|by intros ?]|].
      split; [split; [|done]|].
      * intros Hin%list_elem_of_singleton. discriminate.
      * intros message ->%list_elem_of_singleton. by right.
Qed.

(** * The aggregator on doubles *)

Lemma forEach_fmap {J K S} (g : J → K) (xs : list J) (f : K → S → Completion S) s :
  forEach (g <$> xs) f s = forEach xs (λ x, f (g x)) s.
Proof.
  revert s. induction xs as [|x xs IH]; intros s; [done|].
  simpl. destruct (f (g x) s) as [s'|e]; simpl; [apply IH|done].
Qed.

(** A loop that adds [g x] for every [x] returns what the additions, one
    after the other, make of the start value. *)
Lemma forEach_float_add {K} (xs : list K) (g : K → float) (s : float) :
  forEach xs (λ x sum, Normal (sum + g x)%float) s
  = Normal (fold_left add (g <$> xs) s).
Proof.
  revert s. induction xs as [|x xs IH]; intros s; [done|].
  simpl. apply IH.
Qed.

Lemma forEach_fold_left {K} (xs : list K) (h : K → list float) (s : float) :
  forEach xs (λ x sum, Normal (fold_left add (h x) sum)) s
  = Normal (fold_left add (flat_map h xs) s).
Proof.
  revert s. induction xs as [|x xs IH]; intros s; [done|].
  simpl. rewrite fold_left_app. apply IH.
Qed.

(** The names of an object being distinct, a name reads the value that is
    listed with it. *)
Lemma Double_prop_lookup {V} (o : Double.Obj V) k v :
  Double.distinct_keys o = true → (k, v) ∈ o → Double.prop o k = v.
Proof.
  unfold Double.distinct_keys. intros Hdistinct%bool_decide_eq_true.
  induction o as [|[k' v'] o IH]; intros Hin; [by apply elem_of_nil in Hin|].
  simpl in *. apply NoDup_cons in Hdistinct as [Hfresh Hdistinct].
  apply elem_of_cons in Hin as [[= -> ->]|Hin].
  - by rewrite bool_decide_eq_true_2.
  - rewrite bool_decide_eq_false_2; [by apply IH|].
    intros ->. apply Hfresh, list_elem_of_fmap. by exists (k, v).
Qed.

Lemma Double_pathOr_lookup (cpu : Double.CPU) entry series :
  Double.distinct_keys cpu = true → (entry, series) ∈ cpu →
  Double.pathOr_entry_0_y 0%float entry (Val cpu) = Double.first_sample_value series.
Proof.
  intros Hdistinct Hin.
  unfold Double.pathOr_entry_0_y, Double.path_entry_0_y. simpl.
  rewrite (Double_prop_lookup cpu entry series Hdistinct Hin).
  destruct series as [| |[|[| |[px [| |v]]] pts]]; reflexivity.
Qed.

Lemma Double_inner_loop (cpu : Double.CPU) (sum : float) :
  Double.distinct_keys cpu = true →
  forEach cpu.*1 (λ entry sum,
    let val := Double.pathOr_entry_0_y 0%float entry (Val cpu) in
    Normal (sum + val)%float) sum
  = Normal (fold_left add (Double.first_sample_value <$> cpu.*2) sum).
Proof.
  intros Hdistinct. simpl. rewrite forEach_fmap.
  rewrite (forEach_ext _ _
             (λ kv sum, Normal (sum + Double.first_sample_value kv.2)%float)).
  - by rewrite forEach_float_add, <-list_fmap_compose.
  - intros [entry series] s Hin. simpl.
    by rewrite (Double_pathOr_lookup cpu entry series).
Qed.

Lemma Double_proper_lookup (snapshot : Double.Obj Double.CPU) key cpu :
  Double.proper snapshot = true → (key, cpu) ∈ snapshot →
  Double.prop snapshot key = cpu
  ∧ ∃ series, cpu = Val series ∧ Double.distinct_keys series = true.
Proof.
  unfold Double.proper. intros [Hdistinct Hall]%andb_prop Hin.
  split; [by apply Double_prop_lookup|].
  rewrite <-Is_true_true, forallb_True, Forall_forall in Hall.
  specialize (Hall _ Hin). simpl in Hall.
  destruct cpu as [| |series]; try done.
  exists series. split; [done|]. by apply Is_true_true.
Qed.

Lemma Double_sumCPUUsage_unfold (CPUData : nullable (Double.Obj Double.CPU)) :
  Double.sumCPUUsage CPUData =
    (keys ← Double.Object_keys (default_param CPUData []);
     forEach keys (Double.outer_body (default_param CPUData [])) 0%float).
Proof.
  unfold Double.sumCPUUsage. simpl.
  destruct (Double.Object_keys (default_param CPUData [])) as [keys|e]; simpl; [|done].
  unfold Double.outer_body.
  by destruct (forEach keys _ 0%float).
Qed.

(** The two loops on a proper snapshot. *)
Lemma Double_sumCPUUsage_proper (snapshot : Double.Obj Double.CPU) :
  Double.proper snapshot = true →
  Double.sumCPUUsage (Val snapshot) =
    Normal (Double.float_sum (Double.contributions snapshot)).
Proof.
  intros Hproper. rewrite Double_sumCPUUsage_unfold. simpl.
  rewrite forEach_fmap.
  rewrite (forEach_ext _ _
             (λ processor sum,
                Normal (fold_left add
                          match processor.2 with
                          | Val cpu => Double.first_sample_value <$> cpu.*2
                          | _ => []
                          end sum))).
  - by rewrite forEach_fold_left.
  - intros [key cpu] sum Hin. simpl.
    destruct (Double_proper_lookup snapshot key cpu Hproper Hin)
      as (Hprop & series & -> & Hdistinct).
    unfold Double.outer_body, Double.get. rewrite Hprop. simpl.
    by apply Double_inner_loop.
Qed.

(** C1, as the claim states it, fails: the additions round, so the result
    need not be the sum, and it depends on the order of the processors.
    With the values 2^53, 1 and 1 in this order the result is 2^53, where
    the sum is 2^53 + 2; with 2^53 last the result is 2^53 + 2. *)
Lemma sumCPUUsage_rounds_in_key_order :
  Double.sumCPUUsage (Val Double.large_first) = Normal 9007199254740992%float
  ∧ Double.sumCPUUsage (Val Double.large_last) = Normal 9007199254740994%float
  ∧ 9007199254740992%float ≠ 9007199254740994%float
  ∧ sumCPUUsage (Val large_first_exact) = Normal (num 9007199254740994).
Proof.
  split; [reflexivity|]. split; [reflexivity|]. split.
  - intros Heq.
    apply (f_equal (λ v, PrimFloat.eqb v 9007199254740992%float)) in Heq.
    vm_compute in Heq. discriminate.
  - rewrite sumCPUUsage_present by (vm_compute; reflexivity).
    reflexivity.
Qed.

(** C1, amended.  For every metric snapshot, [sumCPUUsage] returns what
    adding to 0, one after the other and each time rounded to a double, the
    values of the first sample points makes: processor after processor in
    the order of [Object.keys] and, within a processor, series after series,
    a series without a value at index 0 counting as 0.  The empty snapshot
    gives 0, and further processors carry the accumulation on. *)
Theorem sumCPUUsage_accumulates_in_key_order (snapshot : Double.Obj Double.CPU) :
  Double.proper snapshot = true →
  Double.sumCPUUsage (Val snapshot) =
    Normal (Double.float_sum (Double.contributions snapshot))
  ∧ Double.sumCPUUsage (Val []) = Normal 0%float
  ∧ ∀ more,
      Double.proper (snapshot ++ more) = true →
      Double.sumCPUUsage (Val (snapshot ++ more)) =
        Normal (fold_left add (Double.contributions more)
                  (Double.float_sum (Double.contributions snapshot))).
Proof.
  intros Hproper. split; [by apply Double_sumCPUUsage_proper|].
  split; [reflexivity|].
  intros more Hmore. rewrite Double_sumCPUUsage_proper by done.
  unfold Double.float_sum, Double.contributions.
  by rewrite flat_map_app, fold_left_app.
Qed.

Lemma sumCPUUsage_accumulates_in_key_order_witness :
  Double.proper Double.large_first = true
  ∧ Double.sumCPUUsage (Val Double.large_first) =
      Normal (Double.float_sum [9007199254740992; 1; 1]%float).
Proof.
  split; [vm_compute; reflexivity|].
  destruct (sumCPUUsage_accumulates_in_key_order Double.large_first) as [-> _].
  - vm_compute; reflexivity.
  - reflexivity.
Defined.

(** * The component, render by render *)

(** ** Without a core count *)

(** A fetch without a truthy core count touches neither the usage value nor
    the core count, in no render. *)
Lemma lacks_cores_renders r st s :
  lacks_cores r = true → s ∈ refresh_renders r st →
  numCores s = numCores st ∧ usedCPU s = usedCPU st.
Proof.
  intros Hr Hs. unfold refresh_renders, settle_renders in Hs.
  destruct r as [data|]; simpl in Hr.
  - apply negb_true_iff in Hr.
    rewrite (onFulfilled_no_cores data st Hr) in Hs.
    unfold onFulfilled_renders in Hs.
    rewrite app_nil_r in Hs.
    destruct (path_SysInfo_cpu_cores data) as [| |n];
      try rewrite Hr in Hs; simpl in Hs;
      repeat (apply elem_of_cons in Hs as [->|Hs]; [done|]);
      by apply elem_of_nil in Hs.
  - unfold onRejected_renders in Hs.
    destruct (truthy_cell (usedCPU st)); simpl in Hs;
      repeat (apply elem_of_cons in Hs as [->|Hs]; [done|]);
      by apply elem_of_nil in Hs.
Qed.

Lemma lacks_cores_refresh r st :
  lacks_cores r = true →
  numCores (refresh r st) = numCores st ∧ usedCPU (refresh r st) = usedCPU st.
Proof.
  intros Hr. unfold refresh, settle. destruct r as [data|]; simpl in Hr.
  - apply negb_true_iff in Hr. by rewrite (onFulfilled_no_cores data st Hr).
  - by rewrite onRejected_numCores, onRejected_usedCPU.
Qed.

Lemma lacks_cores_run rs st s :
  forallb lacks_cores rs = true → s ∈ run_renders rs st →
  numCores s = numCores st ∧ usedCPU s = usedCPU st.
Proof.
  revert st. induction rs as [|r rs IH]; intros st Hrs Hs; simpl in *.
  - by apply list_elem_of_singleton in Hs as ->.
  - apply andb_prop in Hrs as [Hr Hrs].
    apply elem_of_cons in Hs as [->|Hs]; [done|].
    apply elem_of_app in Hs as [Hs|Hs]; [by apply (lacks_cores_renders r)|].
    destruct (IH _ Hrs Hs) as [-> ->]. by apply lacks_cores_refresh.
Qed.

(** C6, as the claim states it, fails: after a reading of 50 on two cores,
    a response whose core count is absent, or 0, leaves the capacity 200
    and the value 50 on the gauge. *)
Lemma earlier_reading_stays_without_cores :
  gauge_max (run [Resolved (Val example_data); Resolved no_cores_data] initial)
    = num 200
  ∧ gauge_value (run [Resolved (Val example_data); Resolved no_cores_data] initial)
    = num 50
  ∧ gauge_max (run [Resolved (Val example_data); Resolved zero_cores_data] initial)
    = num 200
  ∧ gauge_value (run [Resolved (Val example_data); Resolved zero_cores_data] initial)
    = num 50
  ∧ num 200 ≠ num 1 ∧ num 50 ≠ num 0.
Proof.
  repeat split; try reflexivity; intros Heq%num_inj; discriminate.
Qed.

(** C6, amended.  As long as the core count has been unknown, that is
    absent or 0, in every response so far (and whatever fetches failed),
    every render passes the capacity 1 and the value 0 to the gauge: never
    a zero capacity, never a negative value. *)
Theorem gauge_defaults_while_cores_unknown (rs : list Fetch) (st : State) :
  forallb lacks_cores rs = true →
  st ∈ run_renders rs initial →
  gauge_max st = num 1 ∧ gauge_value st = num 0
  ∧ gauge_max st ≠ num 0 ∧ num 0 ≤ gauge_value st.
Proof.
  intros Hrs Hst.
  destruct (lacks_cores_run rs initial st Hrs Hst) as [Hcores Hused].
  unfold gauge_max, gauge_value. rewrite Hcores, Hused. simpl.
  repeat split; done.
Qed.

Lemma gauge_defaults_while_cores_unknown_witness :
  gauge_max (setError (Some {| field := None; reason := "Error" |})
               (refresh (Resolved zero_cores_data) initial)) = num 1
  ∧ gauge_value (setError (Some {| field := None; reason := "Error" |})
                   (refresh (Resolved zero_cores_data) initial)) = num 0.
Proof.
  destruct (gauge_defaults_while_cores_unknown
              [Resolved zero_cores_data; Rejected]
              (setError (Some {| field := None; reason := "Error" |})
                 (refresh (Resolved zero_cores_data) initial)))
    as (Hmax & Hvalue & _).
  - vm_compute; reflexivity.
  - vm_compute. do 4 right. left.
  - by split.
Defined.

(** ** A good response *)

(** A response with a core count that is a positive integer and a snapshot
    with an object for every processor: the four setters run, and the usage
    value is an integer between 0 and 100 times the core count. *)
Lemma good_response (data : Data) (st : State) (c : N) :
  path_SysInfo_cpu_cores (Val data) = Val (num (Z.of_N c)) → c ≠ 0%N →
  well_shaped (data_CPU data) = true →
  ∃ z : Z,
    (0 ≤ z ≤ 100 * Z.of_N c)%Z
    ∧ onFulfilled (Val data) st =
        ({| loading := false; error := None;
            usedCPU := Some (num z); numCores := Some (num (Z.of_N c)) |}, None)
    ∧ onFulfilled_renders (Val data) st =
        [ setLoading false st;
          setError None (setLoading false st);
          {| loading := false; error := None;
             usedCPU := usedCPU st; numCores := Some (num (Z.of_N c)) |};
          {| loading := false; error := None;
             usedCPU := Some (num z); numCores := Some (num (Z.of_N c)) |} ].
Proof.
  intros Hcores Hc Hshape.
  destruct (normalizeValue_returns (total_of (data_CPU data)) c)
    as (clamped & z & _ & Hnorm & _ & Hz).
  assert (num (Z.of_N c) ≠ num 0) as Hn by (intros Heq%num_inj; lia).
  assert ((used ← sumCPUUsage (data_CPU data); normalizeValue used (num (Z.of_N c)))
          = Normal (num z)) as Hused.
  { by rewrite sumCPUUsage_well_shaped. }
  exists z. split; [done|]. split.
  - by apply onFulfilled_returns.
  - unfold onFulfilled_renders. rewrite Hcores. simpl.
    rewrite bool_decide_eq_true_2 by done. simpl.
    change (CPUData ← Normal (data_CPU data); used ← sumCPUUsage CPUData;
            normalizeValue used (num (Z.of_N c)))
      with (used ← sumCPUUsage (data_CPU data);
            normalizeValue used (num (Z.of_N c))).
    by rewrite Hused.
Qed.

(** X7.  A response with a core count that is a positive integer and a
    snapshot with an object for every processor: whatever the state before,
    the callback leaves the loading flag and the error cleared, the core
    count stored, and as usage value an integer between 0 and 100 times the
    core count. *)
Theorem refresh_stores_reading (data : Data) (st : State) (c : N) :
  path_SysInfo_cpu_cores (Val data) = Val (num (Z.of_N c)) → c ≠ 0%N →
  well_shaped (data_CPU data) = true →
  ∃ z : Z,
    (0 ≤ z ≤ 100 * Z.of_N c)%Z
    ∧ refresh (Resolved (Val data)) st =
        {| loading := false; error := None;
           usedCPU := Some (num z); numCores := Some (num (Z.of_N c)) |}.
Proof.
  intros Hcores Hc Hshape.
  destruct (good_response data st c Hcores Hc Hshape) as (z & Hz & Hend & _).
  exists z. split; [done|]. unfold refresh, settle. by rewrite Hend.
Qed.

Lemma refresh_stores_reading_witness :
  ∃ z : Z,
    (0 ≤ z ≤ 200)%Z
    ∧ refresh (Resolved (Val example_data)) initial =
        {| loading := false; error := None;
           usedCPU := Some (num z); numCores := Some (num 2) |}.
Proof.
  apply (refresh_stores_reading example_data initial 2);
    vm_compute; (reflexivity || discriminate).
Defined.

(** ** The status text in every render *)

Lemma onFulfilled_renders_flags data st s :
  s ∈ onFulfilled_renders data st →
  loading s = false ∧ (error s = error st ∨ error s = None).
Proof.
  unfold onFulfilled_renders. intros Hs.
  destruct (path_SysInfo_cpu_cores data) as [| |n]; simpl in Hs;
    try case_bool_decide; simpl in Hs;
    try destruct (_ ≫= _); simpl in Hs;
    repeat (apply elem_of_cons in Hs as [->|Hs]; [simpl; auto|]);
    by apply elem_of_nil in Hs.
Qed.

Lemma onRejected_renders_flags captured st s :
  s ∈ onRejected_renders captured st →
  error s = Some {| field := None; reason := "Error" |}.
Proof.
  unfold onRejected_renders. intros Hs.
  destruct (truthy_cell captured); simpl in Hs;
    repeat (apply elem_of_cons in Hs as [->|Hs]; [done|]);
    by apply elem_of_nil in Hs.
Qed.

(** In every render: the loading flag is set without an error in the
    initial state only, and the only error is the generic one. *)
Lemma rendered_flags st :
  rendered st →
  (loading st = true → error st = None → st = initial)
  ∧ (error st = None ∨ error st = Some {| field := None; reason := "Error" |}).
Proof.
  intros [st' Hst|captured r st0 st' Hst0 Hin].
  - destruct (reachable_flags st' Hst) as [Hloading Herror]. auto.
  - destruct (reachable_flags st0 Hst0) as [_ Herror].
    unfold settle_renders in Hin. destruct r as [data|].
    + pose proof (onFulfilled_error data st0) as Herr'.
      destruct (onFulfilled data st0) as [st1 thrown]. simpl in Herr'.
      apply elem_of_app in Hin as [Hin|Hin].
      * destruct (onFulfilled_renders_flags _ _ _ Hin) as [Hl He].
        split; [congruence|]. destruct He as [->| ->]; auto.
      * destruct thrown; [|by apply elem_of_nil in Hin].
        rewrite (onRejected_renders_flags _ _ _ Hin). split; [done|auto].
    + rewrite (onRejected_renders_flags _ _ _ Hin). split; [done|auto].
Qed.

(** X9.  In every render of the component the status text is one of three:
    the loading indicator, and then nothing has happened yet; the generic
    error [Error], the only error the component ever sets; or the value that
    the gauge gets, followed by a percent sign, with the loading flag and
    the error cleared. *)
Theorem rendered_status_text (Number_toString : number → string) (st : State) :
  rendered st →
  (gauge_innerText Number_toString st = "Loading..." ∧ st = initial)
  ∨ (gauge_innerText Number_toString st = "Error"
     ∧ error st = Some {| field := None; reason := "Error" |})
  ∨ (gauge_innerText Number_toString st =
       Number_toString (gauge_value st) +:+ "%"
     ∧ loading st = false ∧ error st = None).
Proof.
  intros [Hloading Herror]%rendered_flags.
  unfold gauge_innerText, innerText.
  destruct Herror as [He|He]; rewrite He in *; [|right; by left].
  destruct (loading st) eqn:Hl.
  - left. by rewrite (Hloading eq_refl eq_refl).
  - right. right. split; [|done]. do 2 f_equal.
    unfold usedCPU_or_0, gauge_value, truthy_cell.
    destruct (usedCPU st) as [v|]; [|done].
    case_bool_decide as Hv; [done|].
    by destruct (decide (v = num 0)) as [->|].
Qed.

Lemma rendered_status_text_witness :
  loading (setError (Some {| field := None; reason := "Error" |}) initial) = true
  ∧ gauge_innerText (λ _, "0")
      (setError (Some {| field := None; reason := "Error" |}) initial) = "Error".
Proof.
  split; [reflexivity|].
  destruct (rendered_status_text (λ _, "0")
              (setError (Some {| field := None; reason := "Error" |}) initial))
    as [[_ Hinit]|[[Htext _]|[_ [_ Herr]]]].
  - apply (rendered_between None Rejected initial); [apply reachable_initial|].
    vm_compute. left.
  - discriminate Hinit.
  - exact Htext.
  - discriminate Herr.
Defined.

(** ** The gauge and its capacity *)

Lemma cells_in_range_value st :
  cells_in_range st →
  num 0 ≤ gauge_value st ∧ gauge_value st ≤ gauge_max st.
Proof.
  unfold cells_in_range, gauge_value, gauge_max.
  destruct (numCores st) as [n|].
  - intros [Hn Hu]. destruct (usedCPU st) as [u|]; [by apply Hu|].
    split; [done|]. qlra_100.
  - intros ->. split; [done|]. apply num_le. lia.
Qed.

(** The positive integer that a good response brings as core count. *)
Lemma good_fetch_cores (data : Data) n :
  good_fetch (Resolved (Val data)) = true →
  path_SysInfo_cpu_cores (Val data) = Val n → n ≠ num 0 →
  ∃ c : N, n = num (Z.of_N c) ∧ c ≠ 0%N ∧ well_shaped (data_CPU data) = true.
Proof.
  intros Hgood Hcores Hn. unfold good_fetch in Hgood. rewrite Hcores in Hgood.
  rewrite bool_decide_eq_false_2 in Hgood by done. simpl in Hgood.
  apply andb_prop in Hgood as [[Hpos Hwhole]%andb_prop Hshape].
  apply bool_decide_eq_true in Hpos, Hwhole.
  assert (0 < Qfloor n)%Z as Hfloor by (apply num_lt; by rewrite <-Hwhole).
  exists (Z.to_N (Qfloor n)). rewrite Z2N.id by lia.
  split; [done|]. split; [lia|done].
Qed.

Lemma good_refresh r st :
  good_fetch r = true → cells_in_range st → cells_in_range (refresh r st).
Proof.
  intros Hgood Hst.
  destruct (lacks_cores r) eqn:Hlacks.
  { destruct (lacks_cores_refresh r st Hlacks) as [Hcores Hused].
    unfold cells_in_range. by rewrite Hcores, Hused. }
  destruct r as [data|]; [|done]. simpl in Hlacks.
  apply negb_false_iff in Hlacks.
  destruct data as [| |data]; try done.
  destruct (path_SysInfo_cpu_cores (Val data)) as [| |n] eqn:Hcores; try done.
  simpl in Hlacks. apply bool_decide_eq_true in Hlacks.
  destruct (good_fetch_cores data n Hgood Hcores Hlacks) as (c & -> & Hc & Hshape).
  destruct (good_response data st c Hcores Hc Hshape) as (z & Hz & Hend & _).
  unfold refresh, settle, cells_in_range. rewrite Hend. simpl.
  split; [apply num_lt; lia|]. intros u [= <-].
  split; [apply num_le; lia|].
  assert (num 100 * num (Z.of_N c) = num (100 * Z.of_N c)) as ->.
  { apply Qc_is_canon. to_Q. reflexivity. }
  apply num_le. lia.
Qed.

Lemma good_renders r st s :
  good_fetch r = true → cells_in_range st → s ∈ refresh_renders r st →
  num 0 ≤ gauge_value s.
Proof.
  intros Hgood Hst Hs.
  destruct (cells_in_range_value st Hst) as [Hvalue _].
  destruct (lacks_cores r) eqn:Hlacks.
  { destruct (lacks_cores_renders r st s Hlacks Hs) as [_ Hused].
    unfold gauge_value in *. by rewrite Hused. }
  destruct r as [data|]; [|done]. simpl in Hlacks.
  apply negb_false_iff in Hlacks.
  destruct data as [| |data]; try done.
  destruct (path_SysInfo_cpu_cores (Val data)) as [| |n] eqn:Hcores; try done.
  simpl in Hlacks. apply bool_decide_eq_true in Hlacks.
  destruct (good_fetch_cores data n Hgood Hcores Hlacks) as (c & -> & Hc & Hshape).
  destruct (good_response data st c Hcores Hc Hshape) as (z & Hz & Hend & Hrenders).
  unfold refresh_renders, settle_renders in Hs.
  rewrite Hend, Hrenders, app_nil_r in Hs.
  repeat (apply elem_of_cons in Hs as [->|Hs]; [try done|]).
  - unfold gauge_value. simpl. apply num_le. lia.
  - by apply elem_of_nil in Hs.
Qed.

Lemma good_run rs st :
  forallb good_fetch rs = true → cells_in_range st →
  cells_in_range (run rs st)
  ∧ ∀ s, s ∈ run_renders rs st → num 0 ≤ gauge_value s.
Proof.
  revert st. induction rs as [|r rs IH]; intros st Hrs Hst; simpl in *.
  - split; [done|]. intros s ->%list_elem_of_singleton.
    by apply cells_in_range_value.
  - apply andb_prop in Hrs as [Hr Hrs].
    destruct (IH (refresh r st) Hrs (good_refresh r st Hr Hst)) as [Hend Hall].
    split; [done|]. intros s Hs.
    apply elem_of_cons in Hs as [->|Hs]; [by apply cells_in_range_value|].
    apply elem_of_app in Hs as [Hs|Hs]; [by apply (good_renders r st)|].
    by apply Hall.
Qed.

(** Between [setNumCores] and [setUsedCPU] the gauge is rendered with the
    new capacity and the old value: after 150 on two cores, a response with
    one core shows 150 of 100 for one render. *)
Lemma gauge_exceeds_between_setters :
  ∃ s,
    s ∈ refresh_renders (Resolved (Val one_core_data))
          (refresh (Resolved (Val busy_data)) initial)
    ∧ gauge_value s = num 150 ∧ gauge_max s = num 100.
Proof.
  exists {| loading := false; error := None;
            usedCPU := Some (num 150); numCores := Some (num 1) |}.
  split; [|split; reflexivity].
  vm_compute. do 2 right. left.
Qed.

(** X11.  With one fetch after the other, each of them a failure, a
    response without a truthy core count, or a response with a core count
    that is a positive integer and a snapshot with an object for every
    processor: once a callback has run to its end, the value that the gauge
    gets lies between 0 and the capacity that it gets; and in no render,
    also between two setters, is the value negative. *)
Theorem gauge_within_capacity_once_settled (rs : list Fetch) :
  forallb good_fetch rs = true →
  (num 0 ≤ gauge_value (run rs initial)
   ∧ gauge_value (run rs initial) ≤ gauge_max (run rs initial))
  ∧ ∀ st, st ∈ run_renders rs initial → num 0 ≤ gauge_value st.
Proof.
  intros Hrs.
  destruct (good_run rs initial Hrs) as [Hend Hall]; [done|].
  split; [by apply cells_in_range_value|done].
Qed.

Lemma gauge_within_capacity_once_settled_witness :
  gauge_value (run [Resolved (Val busy_data); Resolved (Val one_core_data)] initial)
  ≤ gauge_max (run [Resolved (Val busy_data); Resolved (Val one_core_data)] initial).
Proof.
  apply (gauge_within_capacity_once_settled
           [Resolved (Val busy_data); Resolved (Val one_core_data)]).
  vm_compute; reflexivity.
Defined.
